(** * WebHDFS client (lib/webhdfs.js): status classifier, error parsing,
    metadata calls and the two streaming sessions.

    The JavaScript of [lib/webhdfs.js] is embedded function by function.
    Asynchronous code is written in continuation style: a call that issues
    an HTTP request returns the request together with the handler the
    [request] library will run on completion, and the two stream
    sessions are state machines over the events that library delivers.
    What the client relies on in that library is kept apart from the
    client's own code: the listeners the library attaches for a callback,
    the ['error'] it emits when a request fails in transport, Node's rule
    for an ['error'] nobody listens to, and the redirects the library
    follows by itself. *)

From Stdlib Require Import ZArith Ascii Floats.PrimFloat.
From stdpp Require Import gmap strings list fin_maps pretty.

Set Warnings "-register-all,-clear-no-such-hyp".
Local Open Scope Z_scope.

(** ** JavaScript values *)

(** Values as [JSON.parse] and the [request] library hand them over:
    numbers are IEEE doubles, objects are maps from property names. *)
Inductive value :=
  | VUndefined
  | VNull
  | VBool (b : bool)
  | VNum (f : float)
  | VStr (s : string)
  | VArr (l : list value)
  | VObj (o : gmap string value).

(** Error objects: the ones the client builds with [new Error(message)]
    (the argument is kept as given; it is the error's message when it is a
    string), the ones the transport hands to a callback, and the
    [TypeError] the runtime raises on a bad property access or call. *)
Inductive Error :=
  | new_Error (message : value)
  | TransportError (info : string)
  | TypeError.

(** A computation that returns or throws. *)
Inductive result (A : Type) :=
  | Ok (a : A)
  | Throw (e : Error).
Arguments Ok {A} a.
Arguments Throw {A} e.

#[export] Instance result_ret : MRet result := λ A a, Ok a.
#[export] Instance result_bind : MBind result := λ A B f r,
  match r with Ok a => f a | Throw e => Throw e end.
#[export] Instance result_fmap : FMap result := λ A B f r,
  match r with Ok a => Ok (f a) | Throw e => Throw e end.

(** [ToBoolean]: [undefined], [null], [false], [0], [-0], [NaN] and the
    empty string are falsy, everything else (arrays and objects too) is
    truthy. *)
Definition truthy (v : value) : bool :=
  match v with
  | VUndefined | VNull => false
  | VBool b => b
  | VNum f => negb (PrimFloat.eqb f 0%float) && PrimFloat.eqb f f
  | VStr s => negb (String.eqb s "")
  | VArr _ | VObj _ => true
  end.

(** [typeof v === 'string'] *)
Definition is_string (v : value) : bool :=
  match v with VStr _ => true | _ => false end.

(** lodash's [_.isString] and [_.isArray] on these values. *)
Definition isString (v : value) : bool := is_string v.
Definition isArray (v : value) : bool :=
  match v with VArr _ => true | _ => false end.

(** Canonical array indices, the only own property names of a string or an
    array besides [length]. *)
Definition is_digit (c : Ascii.ascii) : bool :=
  (48 <=? Ascii.nat_of_ascii c)%nat && (Ascii.nat_of_ascii c <=? 57)%nat.

Fixpoint digits_value (acc : nat) (s : string) : option nat :=
  match s with
  | EmptyString => Some acc
  | String c s' =>
      if is_digit c then digits_value (10 * acc + (Ascii.nat_of_ascii c - 48))%nat s'
      else None
  end.

Definition array_index (k : string) : option nat :=
  match k with
  | EmptyString => None
  | String c rest =>
      if Ascii.eqb c "0"%char then (if String.eqb rest "" then Some 0%nat else None)
      else digits_value 0 k
  end.

Definition indexed_own (len : nat) (k : string) : bool :=
  String.eqb k "length" ||
  match array_index k with Some i => (i <? len)%nat | None => false end.

(** [v.hasOwnProperty(k)]. On [undefined] and [null] the property access
    throws. On an object the method is looked up first: an own property
    named [hasOwnProperty] shadows [Object.prototype.hasOwnProperty], and
    since no value here is callable the call then throws. *)
Definition hasOwnProperty (v : value) (k : string) : result bool :=
  match v with
  | VUndefined | VNull => Throw TypeError
  | VBool _ | VNum _ => Ok false
  | VStr s => Ok (indexed_own (String.length s) k)
  | VArr l => Ok (indexed_own (length l) k)
  | VObj o =>
      match o !! "hasOwnProperty" with
      | Some _ => Throw TypeError
      | None => Ok (bool_decide (is_Some (o !! k)))
      end
  end.

(** [v.k] for a property name [k] that no prototype defines and that is
    neither an index nor [length] (the client reads [RemoteException],
    [message] and [FileStatus] only): the own property, else [undefined]. *)
Definition get (v : value) (k : string) : result value :=
  match v with
  | VUndefined | VNull => Throw TypeError
  | VObj o => Ok (default VUndefined (o !! k))
  | _ => Ok VUndefined
  end.

(** [Array.prototype.indexOf] on numbers: the first index, or [-1]. *)
Fixpoint indexOf_from (i : Z) (l : list Z) (x : Z) : Z :=
  match l with
  | [] => -1
  | y :: l' => if bool_decide (y = x) then i else indexOf_from (i + 1) l' x
  end.

Definition indexOf (l : list Z) (x : Z) : Z := indexOf_from 0 l x.

(** The [extend] package, shallow form: own properties of [src] are copied
    onto [target], those whose value is [undefined] excepted. *)
Definition is_undefined (v : value) : bool :=
  match v with VUndefined => true | _ => false end.

Definition extend (target src : gmap string value) : gmap string value :=
  filter (λ kv, is_undefined kv.2 = false) src ∪ target.

(** The properties a [for (name in v)] loop visits: those of an object, the
    indices of an array or a string, none for the other values. *)
Definition own_enumerable (v : value) : gmap string value :=
  match v with
  | VObj o => o
  | VArr l => list_to_map (imap (λ i x, (pretty i, x)) l)
  | VStr s =>
      list_to_map (imap (λ i c, (pretty i, VStr (String c EmptyString)))
                        (String.list_ascii_of_string s))
  | _ => ∅
  end.

(** [extend (target, src)] for a source that may be any value: [null] and
    [undefined] add nothing. *)
Definition extend_value (target : gmap string value) (src : value)
    : gmap string value :=
  extend target (own_enumerable src).

(** ** Responses *)

(** An HTTP response as the [request] library presents it. Header names are
    lower-cased by Node. [body] is the decoded body of a completed response
    ([undefined] when there was none). *)
Record response := {
  statusCode : Z;
  headers : gmap string string;
  body : value
}.

(** What the [request] library passes to a completion callback
    [(err, res, body)]: an error and nothing else, or [null], the response
    and its body. *)
Inductive outcome :=
  | Failed (err : Error)
  | Completed (res : response).

(** ** Status classifier *)

(** [res.headers.hasOwnProperty ('location')] is a lookup: header names are
    lower-case, so [headers] has no own property [hasOwnProperty]. *)
Definition _isRedirect (res : response) : bool :=
  negb (indexOf [301; 307] (statusCode res) =? -1) &&
  bool_decide (is_Some (headers res !! "location")).

Definition _isSuccess (res : response) : bool :=
  negb (indexOf [200; 201] (statusCode res) =? -1).

Definition _isError (res : response) : bool :=
  negb (indexOf [400; 401; 402; 403; 404; 500] (statusCode res) =? -1).

(** ** Library functions the client calls *)

(** The argument of [url.format]. *)
Record urlobj := {
  protocol : string;
  hostname : string;
  port : Z;
  pathname : string;
  search : option string
}.

(** Functions of the platform and of the libraries the client loads, whose
    results the client passes on without looking inside: [JSON.parse]
    ([None] when it throws), [url.format], [querystring.stringify] and
    lodash's [_.join]. [request_follows params res] is the redirect policy of
    the [request] library: whether a request made with [params] that is
    answered with [res] is sent on to the answer's [location] by the library
    itself, in which case [res] reaches neither callback nor listener. *)
Class Builtins := {
  JSON_parse : string → option value;
  url_format : urlobj → string;
  querystring_stringify : gmap string value → string;
  lodash_join : list value → string → string;
  request_follows : gmap string value → response → bool
}.

(** ** The client *)

(** A [WebHDFS] instance after its constructor ran: [_opts.user],
    [_opts.path], the URL template [_url] and the extra request parameters
    ([∅] when the caller gave none). *)
Record WebHDFS := {
  _opts_user : string;
  _opts_path : string;
  _url : urlobj;
  _requestParams : gmap string value
}.

(** A request handed to the [request] library with a completion callback:
    the parameters it was issued with and what the callback does with the
    outcome. *)
Record pending (R : Type) := {
  req_params : gmap string value;
  onComplete : outcome → result R
}.
Arguments req_params {R} p.
Arguments onComplete {R} p o.

(** Issue the call, then let the transport complete it with [o]. *)
Definition resolve {R} (call : result (pending R)) (o : outcome) : result R :=
  p ← call; onComplete p o.

Definition string_of (v : value) : string :=
  match v with VStr s => s | _ => "" end.

Section Client.
Context `{Builtins}.

(** [_getOperationEndpoint]. The assignment to the shared [this._url] sets
    [pathname] and [search] afresh on every call and nothing else reads
    them, so only the returned string is kept. *)
Definition _getOperationEndpoint (this : WebHDFS) (operation path : string)
    (params : value) : string :=
  let endpoint := _url this in
  let endpoint :=
    {| protocol := protocol endpoint; hostname := hostname endpoint;
       port := port endpoint;
       pathname := _opts_path this +:+ path;
       search := Some (querystring_stringify
         (extend_value {[ "op" := VStr operation;
                          "user.name" := VStr (_opts_user this) ]}
                       (if truthy params then params else VObj ∅))) |} in
  url_format endpoint.

(** [_parseError (body, strict)]: [Ok None] is the [null] return. *)
Definition _parseError (body : value) (strict : bool) : result (option Error) :=
  let body :=
    match body with
    | VStr s => match JSON_parse s with Some v => v | None => VNull end
    | _ => body
    end in
  has ← (if truthy body then hasOwnProperty body "RemoteException" else Ok false);
  error ← (if has : bool then get body "RemoteException"
           else Ok (if strict then VNull
                    else VObj {[ "message" := VStr "Unknown error" ]}));
  if truthy error then message ← get error "message"; Ok (Some (new_Error message))
  else Ok None.

(** [_sendRequest (method, url, opts, callback)] and its [onComplete]. *)
Definition _sendRequest {R} (this : WebHDFS) (method url : string)
    (opts : gmap string value)
    (callback : option Error → option response → value → result R) : pending R :=
  {| req_params :=
       extend (extend {[ "method" := VStr method; "url" := VStr url;
                         "json" := VBool true ]} (_requestParams this)) opts;
     onComplete := λ o,
       match o with
       | Failed err => callback (Some err) None VUndefined
       | Completed res =>
           if _isError res then
             e ← _parseError (body res) false; callback e None VUndefined
           else if _isSuccess res then callback None (Some res) (body res)
           else callback (Some (new_Error (VStr "Unexpected redirect")))
                         (Some res) (body res)
       end |}.

(** [!path || typeof path !== 'string'] *)
Definition invalid_path (path : value) : bool :=
  negb (truthy path) || negb (is_string path).

(** [stat (path, callback)] *)
Definition stat {R} (this : WebHDFS) (path : value)
    (callback : option Error → value → result R) : result (pending R) :=
  if invalid_path path then Throw (new_Error (VStr "path must be a string"))
  else
    let endpoint := _getOperationEndpoint this "GETFILESTATUS" (string_of path)
                                          VUndefined in
    Ok (_sendRequest this "GET" endpoint ∅ (λ err res _,
      match err with
      | Some e => callback (Some e) VUndefined
      | None =>
          match res with
          | None => Throw TypeError
          | Some res =>
              has ← hasOwnProperty (body res) "FileStatus";
              if has : bool then
                status ← get (body res) "FileStatus"; callback None status
              else callback (Some (new_Error (VStr "Invalid data structure")))
                            VUndefined
          end
      end)).

(** [exists (path, callback)]: [err || !stats ? false : true]. *)
Definition exists_ {R} (this : WebHDFS) (path : value)
    (callback : bool → result R) : result (pending R) :=
  stat this path (λ err stats,
    callback (if bool_decide (is_Some err) || negb (truthy stats) then false else true)).

(** [concat (path, sources, callback)] *)
Definition concat {R} (this : WebHDFS) (path sources : value)
    (callback : option Error → result R) : result (pending R) :=
  if invalid_path path then Throw (new_Error (VStr "path must be a string"))
  else if negb (truthy sources) || negb (isString sources) || negb (isArray sources)
  then Throw (new_Error (VStr "sources must be a string or an array of string"))
  else
    let endpoint := _getOperationEndpoint this "CONCAT" (string_of path)
      (VObj {[ "sources" :=
                 match sources with
                 | VArr l => VStr (lodash_join l ",")
                 | _ => sources
                 end ]}) in
    Ok (_sendRequest this "POST" endpoint ∅ (λ err _ _, callback err)).

(** ** Stream sessions: events and effects *)

(** The events emitted on the stream returned by [createWriteStream] or
    [createReadStream], as a listener that stays attached observes them:
    ['data'] with a chunk, ['error'] with its argument ([None] when the
    argument is [null]), ['finish'] with the optional location string. *)
Inductive event :=
  | EvData (chunk : string)
  | EvError (err : option Error)
  | EvFinish (location : option string).

(** What happens in a session, in program order. A handler of the client
    emits an event on the session's request object, issues a request, ends
    the first request, drives the piped source, or aborts with an uncaught
    exception. [Emit] also stands for the events of the transport that the
    sessions are about: a chunk of a download, and the ['error'] of a
    request that failed. [Unhandled err] is an ['error'] emitted while no
    listener for it is attached: Node's [emit] then throws (the error, or
    an error of its own when [err] is none) out of the handler.
    [Follow res] is the transport following the redirect [res] by itself:
    it requests the [location] of [res] and hands [res] to nobody. *)
Inductive effect :=
  | Emit (e : event)
  | Request (params : gmap string value)
  | ReqEnd
  | SrcPause (src : nat)
  | SrcUnpipe (src : nat)
  | SrcPipeUpload (src : nat)
  | SrcResume (src : nat)
  | SrcStopFlowing (src : nat)
  | Raise (e : Error)
  | Unhandled (err : option Error)
  | Follow (res : response).

Definition events (effs : list effect) : list event :=
  omap (λ f, match f with Emit e => Some e | _ => None end) effs.

Definition requests (effs : list effect) : list (gmap string value) :=
  omap (λ f, match f with Request p => Some p | _ => None end) effs.

(** Whether an exception left a handler uncaught. *)
Definition crashed (effs : list effect) : bool :=
  existsb (λ f, match f with Raise _ | Unhandled _ => true | _ => false end) effs.

(** ** Upload session ([createWriteStream]) *)

(** The variables the handlers of one [createWriteStream] call share:
    [req.errorEmitted], [canResume], [stream], [params], and whether the
    [upload] request has been issued (its callback exists only then). *)
Record wstate := {
  errorEmitted : bool;
  canResume : bool;
  stream : option nat;
  wparams : gmap string value;
  upload : bool
}.

(** [emitError (instance, err)] *)
Definition emitError (st : wstate) (err : option Error) : wstate * list effect :=
  let isErrorEmitted := errorEmitted st in
  ({| errorEmitted := true; canResume := canResume st; stream := stream st;
      wparams := wparams st; upload := upload st |},
   if isErrorEmitted then []
   else [Emit (EvError err); Emit (EvFinish None)]).

(** [emitError (req, err || self._parseError (body))] for the outcome of a
    request that failed in transport or with a remote-error status. *)
Definition emitError_of (st : wstate) (err : option Error) (body : value)
    : wstate * list effect :=
  match err with
  | Some e => emitError st (Some e)
  | None =>
      match _parseError body false with
      | Ok e => emitError st e
      | Throw e => (st, [Raise e])
      end
  end.

(** The callback of the first request. [request (params, callback)] makes
    the callback a listener of the request's own events: of ['complete']
    when the request is answered, and of ['error'] when it fails in
    transport. It is attached when the request is made, before any listener
    of the consumer, and the library lets it run once. So when the first
    request fails, the library's ['error'] event runs the callback first,
    [emitError] emits ['error'] and ['finish'] on the same object from
    inside it, and the library's event then goes on to the listeners
    attached after the callback: the stream emits ['error'], ['finish'],
    ['error']. *)
Definition onFirstResponse (st : wstate) (o : outcome) : wstate * list effect :=
  match o with
  | Failed err =>
      let '(st', effs) := emitError_of st (Some err) VUndefined in
      (st', effs ++ [Emit (EvError (Some err))])
  | Completed res =>
      if _isRedirect res then
        let params' :=
          extend (wparams st)
                 {[ "url" := from_option VStr VUndefined (headers res !! "location") ]} in
        let st' := {| errorEmitted := errorEmitted st; canResume := true;
                      stream := stream st; wparams := params'; upload := true |} in
        match stream st with
        | None => (st', [Request params'; Raise TypeError])
        | Some src =>
            if _isError res then
              let '(st'', effs) := emitError_of st' None (body res) in
              (st'', [Request params'; SrcPipeUpload src; SrcResume src] ++ effs)
            else (st', [Request params'; SrcPipeUpload src; SrcResume src])
        end
      else if _isError res then emitError_of st None (body res)
      else (st, [])
  end.

(** The callback of the [upload] request. When that request fails in
    transport the library's own ['error'] is emitted on [upload], not on
    the stream, which gets what [emitError] emits and nothing else. *)
Definition onUploadResponse (st : wstate) (o : outcome) : wstate * list effect :=
  match o with
  | Failed err =>
      let '(st', effs) := emitError_of st (Some err) VUndefined in
      (st', effs ++ [ReqEnd])
  | Completed res =>
      if _isError res then
        match _parseError (body res) false with
        | Ok e => let '(st', effs) := emitError st e in (st', effs ++ [ReqEnd])
        | Throw e => (st, [Raise e])
        end
      else
        (st, [Emit (EvFinish (headers res !! "location"))])
  end.

(** What reaches a session after [createWriteStream] returned, the first
    callback apart: a source piped into [req], a ['resume'] of the piped
    source, the completion of the [upload] request. *)
Inductive wevent :=
  | Pipe (src : nat)
  | SrcResumed
  | UploadResponse (o : outcome).

Definition wstep (st : wstate) (i : wevent) : wstate * list effect :=
  match i with
  | Pipe src =>
      ({| errorEmitted := errorEmitted st; canResume := false;
          stream := Some src; wparams := wparams st; upload := upload st |},
       [SrcPause src; SrcUnpipe src; ReqEnd])
  | SrcResumed =>
      (st, match stream st with
           | Some src => if canResume st then [] else [SrcStopFlowing src]
           | None => []
           end)
  | UploadResponse o =>
      if upload st then onUploadResponse st o else (st, [])
  end.

Fixpoint wrun (st : wstate) (evs : list wevent) : wstate * list effect :=
  match evs with
  | [] => (st, [])
  | i :: evs' =>
      let '(st1, e1) := wstep st i in
      let '(st2, e2) := wrun st1 evs' in
      (st2, e1 ++ e2)
  end.

Definition write_init (params : gmap string value) : wstate :=
  {| errorEmitted := false; canResume := true; stream := None;
     wparams := params; upload := false |}.

(** [createWriteStream (path, append, opts)] up to its [return req]: the
    first request is issued and the handlers are in place. *)
Definition createWriteStream (this : WebHDFS) (path append opts : value)
    : result (wstate * list effect) :=
  let '(opts, append) :=
    match append with
    | VNull | VArr _ | VObj _ => (append, VBool false)
    | _ => (opts, append)
    end in
  if invalid_path path then Throw (new_Error (VStr "path must be a string"))
  else
    let endpoint :=
      _getOperationEndpoint this (if truthy append then "APPEND" else "CREATE")
        (string_of path)
        (VObj (extend_value {[ "overwrite" := VBool true;
                               "permissions" := VStr "0755" ]} opts)) in
    let params :=
      extend {[ "method" := VStr (if truthy append then "POST" else "PUT");
                "url" := VStr endpoint;
                "json" := VBool true;
                "headers" :=
                  VObj {[ "content-type" := VStr "application/octet-stream" ]} ]}
             (_requestParams this) in
    Ok (write_init params, [Request params]).

(** A whole upload session on parameters [params]: the events [pre] that
    precede the first callback, its outcome [o], the events [post] after
    it. The effects of the first request's creation are not repeated. *)
Definition write_session (params : gmap string value) (pre : list wevent)
    (o : outcome) (post : list wevent) : list effect :=
  let '(st1, e1) := wrun (write_init params) pre in
  let '(st2, e2) := onFirstResponse st1 o in
  let '(_, e3) := wrun st2 post in
  e1 ++ e2 ++ e3.

(** ** Download session ([createReadStream]) *)

(** The ['data'] listeners in play. *)
Inductive listener :=
  | ToConsumer
  | ProxyToReq
  | EmitParsedError.

(** The ['error'] listeners on the stream. [request (params)] without
    callback attaches none, so they are the consumer's: none, one attached
    with [once] (which is removed when it runs), or one attached with
    [on]. *)
Inductive error_listener :=
  | NoListener
  | OnceListener
  | OnListener.

(** [req]'s ['data'] listeners (the consumer's, until a remote-error
    response replaces them); once the [download] request exists, its
    ['data'] listener; [req]'s ['error'] listeners; and whether an
    exception left a handler uncaught, after which nothing more reaches the
    session. *)
Record rstate := {
  req_data : listener;
  download_data : option listener;
  req_error : error_listener;
  uncaught : bool
}.

Definition with_req_data (l : listener) (st : rstate) : rstate :=
  {| req_data := l; download_data := download_data st;
     req_error := req_error st; uncaught := uncaught st |}.

Definition with_download_data (l : listener) (st : rstate) : rstate :=
  {| req_data := req_data st; download_data := Some l;
     req_error := req_error st; uncaught := uncaught st |}.

Definition listen (l : error_listener) (st : rstate) : rstate :=
  {| req_data := req_data st; download_data := download_data st;
     req_error := l; uncaught := uncaught st |}.

Definition thrown (st : rstate) : rstate :=
  {| req_data := req_data st; download_data := download_data st;
     req_error := req_error st; uncaught := true |}.

(** [req.emit ('error', e)]: the listener gets the event; with none
    attached [emit] throws. *)
Definition emit_error (st : rstate) (e : option Error) : rstate * list effect :=
  match req_error st with
  | NoListener => (thrown st, [Unhandled e])
  | OnceListener => (listen NoListener st, [Emit (EvError e)])
  | OnListener => (st, [Emit (EvError e)])
  end.

(** The replacement listener: [req.emit ('error', _parseError (data.toString ()))]
    and then, if that returned, [req.end ()]. *)
Definition onErrorData (st : rstate) (chunk : string) : rstate * list effect :=
  match _parseError (VStr chunk) false with
  | Ok e =>
      let '(st', effs) := emit_error st e in
      (st', if uncaught st' then effs else effs ++ [ReqEnd])
  | Throw e => (thrown st, [Raise e])
  end.

(** A ['data'] event on [req], from the transport or from the proxy. *)
Definition emit_req_data (st : rstate) (chunk : string) : rstate * list effect :=
  match req_data st with
  | EmitParsedError => onErrorData st chunk
  | _ => (st, [Emit (EvData chunk)])
  end.

(** The ['response'] handler of the first request. *)
Definition onResponse (params : gmap string value) (st : rstate) (res : response)
    : rstate * list effect :=
  if _isError res then (with_req_data EmitParsedError st, [])
  else if _isRedirect res then
    (with_download_data ProxyToReq st, [Request params])
  else (st, []).

(** What the transport delivers after the first response: chunks and
    completion of the first request, and response, chunks and completion of
    the [download] request. *)
Inductive revent :=
  | Data (chunk : string)
  | Complete
  | DownloadResponse (res : response)
  | DownloadData (chunk : string)
  | DownloadComplete.

Definition rstep (st : rstate) (i : revent) : rstate * list effect :=
  if uncaught st then (st, [])
  else
    match i with
    | Data chunk => emit_req_data st chunk
    | Complete => (st, [Emit (EvFinish None)])
    | DownloadResponse res =>
        match download_data st with
        | Some _ =>
            if _isError res then (with_download_data EmitParsedError st, [])
            else (st, [])
        | None => (st, [])
        end
    | DownloadData chunk =>
        match download_data st with
        | Some EmitParsedError => onErrorData st chunk
        | Some _ => emit_req_data st chunk
        | None => (st, [])
        end
    | DownloadComplete =>
        (st, match download_data st with
             | Some _ => [Emit (EvFinish None)]
             | None => []
             end)
    end.

Fixpoint rrun (st : rstate) (evs : list revent) : rstate * list effect :=
  match evs with
  | [] => (st, [])
  | i :: evs' =>
      let '(st1, e1) := rstep st i in
      let '(st2, e2) := rrun st1 evs' in
      (st2, e1 ++ e2)
  end.

(** The stream as [createReadStream] returns it: the consumer has yet to
    attach its listeners. *)
Definition read_init : rstate :=
  {| req_data := ToConsumer; download_data := None;
     req_error := NoListener; uncaught := false |}.

(** [createReadStream (path, opts)] up to its [return req]. *)
Definition createReadStream (this : WebHDFS) (path opts : value)
    : result (gmap string value * rstate * list effect) :=
  if invalid_path path then Throw (new_Error (VStr "path must be a string"))
  else
    let endpoint := _getOperationEndpoint this "OPEN" (string_of path) opts in
    let params :=
      extend {[ "method" := VStr "GET"; "url" := VStr endpoint;
                "json" := VBool true ]} (_requestParams this) in
    Ok (params, read_init, [Request params]).

(** The handlers of a download from the ['response'] event on: the stream
    was made with [params], the consumer listens for ['error'] with [l],
    the ['response'] handler runs on [res], and the events [evs] follow.
    Which answer of a server the transport hands to that handler is the
    matter of [arrive] below. *)
Definition after_response (params : gmap string value) (l : error_listener)
    (res : response) (evs : list revent) : list effect :=
  let '(st1, e1) := onResponse params (listen l read_init) res in
  let '(_, e2) := rrun st1 evs in
  e1 ++ e2.

(** What the first request of a download comes to on the network: it fails
    in transport, or a server answers. *)
Inductive arrival :=
  | Refused (err : Error)
  | Response (res : response).

(** The way to the ['response'] event. [answers] are the answer to the
    first request and, where the transport follows a redirect by itself,
    the answers to the requests it makes in turn. A request that fails has
    the transport emit ['error'] on the stream, and neither ['response']
    nor ['complete'] after it. An answer the transport follows is handed to
    nobody. The first other answer goes to the ['response'] handler, and the
    session goes on from the state the handler leaves ([None]: there is no
    such answer). *)
Fixpoint arrive (params : gmap string value) (st : rstate)
    (answers : list arrival) : option rstate * list effect :=
  match answers with
  | [] => (None, [])
  | Refused err :: _ => (None, (emit_error st (Some err)).2)
  | Response res :: rest =>
      if request_follows params res then
        let '(st', effs) := arrive params st rest in (st', Follow res :: effs)
      else
        let '(st', effs) := onResponse params st res in (Some st', effs)
  end.

(** A whole download session on parameters [params] whose consumer listens
    for ['error'] with [l]: the [answers] to the first request, and the
    events [evs] the transport delivers after the ['response'] event. *)
Definition read_session (params : gmap string value) (l : error_listener)
    (answers : list arrival) (evs : list revent) : list effect :=
  match arrive params (listen l read_init) answers with
  | (Some st1, e1) => e1 ++ (rrun st1 evs).2
  | (None, e1) => e1
  end.

End Client.

(** ** Concrete data for the examples *)

Module Sample.

Definition dq : string := String (ascii_of_nat 34) EmptyString.

(** The text [{"RemoteException":{"message":"File not found"}}]. *)
Definition not_found_text : string :=
  "{" +:+ dq +:+ "RemoteException" +:+ dq +:+ ":{" +:+ dq +:+ "message" +:+ dq
      +:+ ":" +:+ dq +:+ "File not found" +:+ dq +:+ "}}".

Definition not_found_json : value :=
  VObj {[ "RemoteException" := VObj {[ "message" := VStr "File not found" ]} ]}.

(** The same text cut in two, as a transport may deliver it. *)
Definition not_found_head : string :=
  "{" +:+ dq +:+ "RemoteException" +:+ dq +:+ ":{" +:+ dq +:+ "message" +:+ dq.
Definition not_found_tail : string :=
  ":" +:+ dq +:+ "File not found" +:+ dq +:+ "}}".

(** A query value as [querystring.stringify] prints it, for the strings
    and booleans the examples use. *)
Definition query_value (v : value) : string :=
  match v with
  | VStr s => s
  | VBool true => "true"
  | VBool false => "false"
  | _ => ""
  end.

(** The parameters of the queries the client's calls build, in an order
    that agrees with the order in which each call inserts its own. *)
Definition query_keys : list string :=
  ["op"; "user.name"; "permission"; "owner"; "group"; "overwrite";
   "permissions"; "createParent"; "destination"; "recursive"; "sources";
   "newlength"; "replication"; "aclspec"; "oldsnapshotname"; "snapshotname"].

Definition query_text (q : gmap string value) : string :=
  foldr (λ k acc,
           match q !! k with
           | Some v =>
               k +:+ "=" +:+ query_value v
                 +:+ (if String.eqb acc "" then "" else "&" +:+ acc)
           | None => acc
           end) "" query_keys.

(** [request]'s redirect policy: [followAllRedirects] (off unless set)
    follows every 3xx answer that has a [location]; [followRedirect] (on
    unless set to a falsy value) follows those to a request whose method
    is none of [PATCH], [PUT], [POST], [DELETE]. *)
Definition follows (params : gmap string value) (res : response) : bool :=
  bool_decide (300 ≤ statusCode res < 400) &&
  bool_decide (is_Some (headers res !! "location")) &&
  (truthy (default (VBool false) (params !! "followAllRedirects")) ||
   truthy (default (VBool true) (params !! "followRedirect")) &&
   negb (bool_decide (string_of (default (VStr "GET") (params !! "method"))
                        ∈ ["PATCH"; "PUT"; "POST"; "DELETE"]))).

(** Builtins for the examples. [JSON_parse] is [JSON.parse] on the texts
    the examples use: it decodes [not_found_text] and refuses the two
    halves, which are not JSON; every other text is refused as well.
    [url_format] prints the fields the client sets,
    [querystring_stringify] the parameters [query_keys] lists, for the
    strings and booleans the examples pass. *)
#[local] Instance builtins : Builtins := {|
  JSON_parse s :=
    if String.eqb s not_found_text then Some not_found_json else None;
  url_format u :=
    protocol u +:+ "://" +:+ hostname u +:+ ":" +:+ pretty (port u)
      +:+ pathname u +:+ from_option (λ q, "?" +:+ q) "" (search u);
  querystring_stringify := query_text;
  lodash_join l sep :=
    foldr (λ v acc, string_of v +:+ (if String.eqb acc "" then "" else sep +:+ acc))
          "" l;
  request_follows := follows
|}.

(** The client [createClient ()] builds from its defaults. *)
Definition client : WebHDFS :=
  {| _opts_user := "webuser";
     _opts_path := "/webhdfs/v1";
     _url := {| protocol := "http"; hostname := "localhost"; port := 50070;
                pathname := "/webhdfs/v1"; search := None |};
     _requestParams := ∅ |}.

Definition response_of (status : Z) (hs : gmap string string) (b : value)
    : response :=
  {| statusCode := status; headers := hs; body := b |}.

Definition datanode_url : string :=
  "http://datanode:50075/webhdfs/v1/f?op=OPEN".

Definition redirect_307 : response :=
  response_of 307 {[ "location" := datanode_url ]} VUndefined.

(** A completed 404 with its decoded body, as a callback gets it, and the
    404 of a ['response'] event, whose body is still to come. *)
Definition not_found_404 : response :=
  response_of 404 ∅ not_found_json.

Definition status_404 : response := response_of 404 ∅ VUndefined.

(** The parameters of the request [createReadStream ('/f')] issues on
    [client]. *)
Definition open_params : gmap string value :=
  {[ "method" := VStr "GET";
     "url" := VStr "http://localhost:50070/webhdfs/v1/f?op=OPEN&user.name=webuser";
     "json" := VBool true ]}.

(** The client [createClient ({}, { followRedirect: false })] builds: the
    transport is told to follow no redirect. *)
Definition client_no_follow : WebHDFS :=
  {| _opts_user := "webuser";
     _opts_path := "/webhdfs/v1";
     _url := _url client;
     _requestParams := {[ "followRedirect" := VBool false ]} |}.

(** The parameters of the request [createReadStream ('/f')] issues on
    [client_no_follow]. *)
Definition open_params_no_follow : gmap string value :=
  {[ "method" := VStr "GET";
     "url" := VStr "http://localhost:50070/webhdfs/v1/f?op=OPEN&user.name=webuser";
     "json" := VBool true;
     "followRedirect" := VBool false ]}.

(** The parameters of the request [createWriteStream ('/f')] issues on
    [client]. *)
Definition create_params : gmap string value :=
  {[ "method" := VStr "PUT";
     "url" := VStr ("http://localhost:50070/webhdfs/v1/f?op=CREATE&user.name=webuser"
                      +:+ "&overwrite=true&permissions=0755");
     "json" := VBool true;
     "headers" := VObj {[ "content-type" := VStr "application/octet-stream" ]} ]}.

Definition refused : Error := TransportError "ECONNREFUSED".

Definition no_content_204 : response := response_of 204 ∅ VUndefined.

Definition created_201 : response := response_of 201 ∅ VUndefined.

Definition created_201_next : response :=
  response_of 201 {[ "location" := "http://datanode/next" ]} VUndefined.

Definition file_status : value := VObj {[ "type" := VStr "FILE" ]}.

Definition ok_200_status : response :=
  response_of 200 ∅ (VObj {[ "FileStatus" := file_status ]}).

End Sample.

(** ** Properties the claims are stated with *)



Definition is_finish_event (e : event) : bool :=
  match e with EvFinish _ => true | _ => false end.



Definition error_events (evs : list event) : list (option Error) :=
  omap (λ e, match e with EvError x => Some x | _ => None end) evs.

Definition data_events (evs : list event) : list string :=
  omap (λ e, match e with EvData c => Some c | _ => None end) evs.

(** The error [_parseError] makes up when it finds no envelope. *)
Definition unknown_error : Error := new_Error (VStr "Unknown error").

(** [e.message] for a truthy [e]. *)
Definition message_of (e : value) : value :=
  match e with
  | VObj o => default VUndefined (o !! "message")
  | _ => VUndefined
  end.

(** What [stat] passes to its callback when its request completes with [o]. *)
Definition stat_answer `{Builtins} (this : WebHDFS) (path : value) (o : outcome)
    : result (option Error * value) :=
  resolve (stat this path (λ err stats, Ok (err, stats))) o.

(** [extend (params, { url: res.headers.location })] *)
Definition redirect_params (params : gmap string value) (res : response)
    : gmap string value :=
  extend params
    {[ "url" := from_option VStr VUndefined (headers res !! "location") ]}.

(** The chunks of the first request and of the [download] request among
    the events of a download session. *)
Definition first_chunks (evs : list revent) : list string :=
  omap (λ i, match i with Data c => Some c | _ => None end) evs.

Definition download_chunks (evs : list revent) : list string :=
  omap (λ i, match i with DownloadData c => Some c | _ => None end) evs.

(** Whether [_parseError] returns on a chunk taken alone, and what it
    returns then ([None] for [null]). *)
Definition parses `{Builtins} (chunk : string) : bool :=
  match _parseError (VStr chunk) false with Ok _ => true | Throw _ => false end.

Definition parsed `{Builtins} (chunk : string) : option Error :=
  match _parseError (VStr chunk) false with Ok e => e | Throw _ => None end.

(** What an event does once the first response of a download was a
    remote-error, while the consumer listens for ['error'] with [on] and
    [_parseError] returns on the chunks. *)
Definition after_first_error `{Builtins} (i : revent) : list effect :=
  match i with
  | Data c => [Emit (EvError (parsed c)); ReqEnd]
  | Complete => [Emit (EvFinish None)]
  | DownloadResponse _ | DownloadData _ | DownloadComplete => []
  end.

(** What an event does once the response of the [download] request of a
    redirected download was a remote-error, under the same conditions. *)
Definition after_download_error `{Builtins} (i : revent) : list effect :=
  match i with
  | Data c => [Emit (EvData c)]
  | DownloadData c => [Emit (EvError (parsed c)); ReqEnd]
  | Complete | DownloadComplete => [Emit (EvFinish None)]
  | DownloadResponse _ => []
  end.

(** The parameters [createReadStream] issues its request with. *)
Definition open_request `{Builtins} (this : WebHDFS) (path opts : value)
    : gmap string value :=
  extend {[ "method" := VStr "GET";
            "url" := VStr (_getOperationEndpoint this "OPEN" (string_of path) opts);
            "json" := VBool true ]} (_requestParams this).

(** An event of an upload session that is not a completion callback. *)
Definition is_flow (i : wevent) : bool :=
  match i with UploadResponse _ => false | _ => true end.



(** ** The other calls of the client *)

(** An argument that may be a function: the callbacks, and the optional
    arguments in whose place a caller may pass the callback. *)
Inductive arg (F : Type) :=
  | AVal (v : value)
  | AFun (f : F).
Arguments AVal {F} v.
Arguments AFun {F} f.

(** [callback && callback (err, x)]: a function is called, a falsy value is
    skipped ([None]: no call), any other value is not callable. *)
Definition invoke {A B R} (callback : arg (A → B → result R)) (a : A) (b : B)
    : result (option R) :=
  match callback with
  | AFun f => r ← f a b; Ok (Some r)
  | AVal v => if truthy v then Throw TypeError else Ok None
  end.

(** The tail of a call [f (path, x, callback)] whose argument [x] is
    optional: [f (path, a)] with one more argument, or [f (path, x,
    callback)] with [x] a value. *)
Inductive tail (F : Type) :=
  | Short (a : arg F)
  | Full (x : value) (callback : arg F).
Arguments Short {F} a.
Arguments Full {F} x callback.

(** [if (typeof callback === 'undefined') { callback = x; x = dflt; }] *)
Definition shift_undefined {F} (dflt : value) (t : tail F) : value * arg F :=
  match t with
  | Short a => (dflt, a)
  | Full x (AVal VUndefined) => (dflt, AVal x)
  | Full x callback => (x, callback)
  end.

(** [x || dflt] *)
Definition or_default (x dflt : value) : value :=
  if truthy x then x else dflt.

(** The argument [querystring.stringify] gets from [_getOperationEndpoint]. *)
Definition endpoint_query (this : WebHDFS) (operation : string) (params : value)
    : gmap string value :=
  extend_value {[ "op" := VStr operation;
                  "user.name" := VStr (_opts_user this) ]}
               (if truthy params then params else VObj ∅).

(** The option check at the head of the constructor: the first of [user],
    [host], [port], [path] that [opts] lacks is reported. *)
Fixpoint check_options (opts : value) (properties : list string) : result unit :=
  match properties with
  | [] => Ok ()
  | property :: rest =>
      has ← hasOwnProperty opts property;
      if has : bool then check_options opts rest
      else Throw (new_Error (VStr
             ("Unable to create WebHDFS client: missing option " +:+ property)))
  end.

Definition required_options : list string := ["user"; "host"; "port"; "path"].

(** The options [createClient (opts)] hands to the constructor. *)
Definition createClient_options (opts : value) : value :=
  VObj (extend_value {[ "user" := VStr "webuser"; "host" := VStr "localhost";
                        "port" := VStr "50070"; "path" := VStr "/webhdfs/v1" ]}
                     opts).

Section Operations.
Context `{Builtins} {R : Type}.

#[local] Abbreviation callback_t := (arg (option Error → value → result R)).

(** [function (err) { return callback && callback (err); }] *)
Definition report (callback : callback_t)
    : option Error → option response → value → result (option R) :=
  λ err _ _, invoke callback err VUndefined.

(** The handler of the calls that hand over one field of the body. *)
Definition project (field : string) (callback : callback_t)
    : option Error → option response → value → result (option R) :=
  λ err res _,
    match err with
    | Some e => invoke callback (Some e) VUndefined
    | None =>
        match res with
        | None => Throw TypeError
        | Some res =>
            has ← hasOwnProperty (body res) field;
            if has : bool then
              x ← get (body res) field; invoke callback None x
            else invoke callback (Some (new_Error (VStr "Invalid data structure")))
                        VUndefined
        end
    end.

(** The handler of the calls that hand over the whole body. *)
Definition pass_body (callback : callback_t)
    : option Error → option response → value → result (option R) :=
  λ err res _,
    match err with
    | Some e => invoke callback (Some e) VUndefined
    | None =>
        match res with
        | None => Throw TypeError
        | Some res => invoke callback None (body res)
        end
    end.

Definition path_error : Error := new_Error (VStr "path must be a string").

Definition chmod (this : WebHDFS) (path mode : value) (callback : callback_t)
    : result (pending (option R)) :=
  if invalid_path path then Throw path_error
  else
    let endpoint := _getOperationEndpoint this "SETPERMISSION" (string_of path)
                      (VObj {[ "permission" := mode ]}) in
    Ok (_sendRequest this "PUT" endpoint ∅ (report callback)).

Definition chown (this : WebHDFS) (path uid gid : value) (callback : callback_t)
    : result (pending (option R)) :=
  if invalid_path path then Throw path_error
  else
    let endpoint := _getOperationEndpoint this "SETOWNER" (string_of path)
                      (VObj {[ "owner" := uid; "group" := gid ]}) in
    Ok (_sendRequest this "PUT" endpoint ∅ (report callback)).

Definition readdir (this : WebHDFS) (path : value) (callback : callback_t)
    : result (pending (option R)) :=
  if invalid_path path then Throw path_error
  else
    let endpoint := _getOperationEndpoint this "LISTSTATUS" (string_of path)
                      VUndefined in
    Ok (_sendRequest this "GET" endpoint ∅ (λ err res _,
      match err with
      | Some e => invoke callback (Some e) VUndefined
      | None =>
          match res with
          | None => Throw TypeError
          | Some res =>
              has ← hasOwnProperty (body res) "FileStatuses";
              has ← (if has : bool then
                       statuses ← get (body res) "FileStatuses";
                       hasOwnProperty statuses "FileStatus"
                     else Ok false);
              if has : bool then
                statuses ← get (body res) "FileStatuses";
                files ← get statuses "FileStatus";
                invoke callback None files
              else invoke callback (Some (new_Error (VStr "Invalid data structure")))
                          VUndefined
          end
      end)).

Definition mkdir (this : WebHDFS) (path : value) (rest : tail _)
    : result (pending (option R)) :=
  let '(mode, callback) := shift_undefined VNull rest in
  if invalid_path path then Throw path_error
  else
    let endpoint := _getOperationEndpoint this "MKDIRS" (string_of path)
                      (VObj {[ "permissions" := or_default mode (VStr "0755") ]}) in
    Ok (_sendRequest this "PUT" endpoint ∅ (report callback)).

Definition rename (this : WebHDFS) (path destination : value)
    (callback : callback_t) : result (pending (option R)) :=
  if invalid_path path then Throw path_error
  else
    let endpoint := _getOperationEndpoint this "RENAME" (string_of path)
                      (VObj {[ "destination" := destination ]}) in
    Ok (_sendRequest this "PUT" endpoint ∅ (report callback)).

Definition symlink (this : WebHDFS) (src dest : value) (rest : tail _)
    : result (pending (option R)) :=
  let '(createParent, callback) :=
    match rest with
    | Short (AFun f) => (VBool false, AFun f)
    | Short (AVal v) => (v, AVal VUndefined)
    | Full x callback => (x, callback)
    end in
  if invalid_path src then Throw (new_Error (VStr "src path must be a string"))
  else if invalid_path dest then
    Throw (new_Error (VStr "dest path must be a string"))
  else
    let endpoint := _getOperationEndpoint this "CREATESYMLINK" (string_of src)
                      (VObj {[ "createParent" := or_default createParent (VBool false);
                               "destination" := dest ]}) in
    Ok (_sendRequest this "PUT" endpoint ∅ (report callback)).

Definition unlink (this : WebHDFS) (path : value) (rest : tail _)
    : result (pending (option R)) :=
  let '(recursive, callback) := shift_undefined VNull rest in
  if invalid_path path then Throw path_error
  else
    let endpoint := _getOperationEndpoint this "DELETE" (string_of path)
                      (VObj {[ "recursive" := or_default recursive (VBool false) ]}) in
    Ok (_sendRequest this "DELETE" endpoint ∅ (report callback)).

(** [WebHDFS.prototype.rmdir = WebHDFS.prototype.unlink] *)
Definition rmdir := unlink.

Definition truncate (this : WebHDFS) (path : value) (rest : tail _)
    : result (pending (option R)) :=
  let '(newlength, callback) := shift_undefined (VNum 0) rest in
  if invalid_path path then Throw path_error
  else
    let endpoint := _getOperationEndpoint this "TRUNCATE" (string_of path)
                      (VObj {[ "newlength" := or_default newlength (VNum 0) ]}) in
    Ok (_sendRequest this "POST" endpoint ∅ (report callback)).

Definition getContentSummary (this : WebHDFS) (path : value)
    (callback : callback_t) : result (pending (option R)) :=
  if invalid_path path then Throw path_error
  else
    let endpoint := _getOperationEndpoint this "GETCONTENTSUMMARY" (string_of path)
                      VUndefined in
    Ok (_sendRequest this "GET" endpoint ∅ (project "ContentSummary" callback)).

Definition getFileChecksum (this : WebHDFS) (path : value)
    (callback : callback_t) : result (pending (option R)) :=
  if invalid_path path then Throw path_error
  else
    let endpoint := _getOperationEndpoint this "GETFILECHECKSUM" (string_of path)
                      VUndefined in
    Ok (_sendRequest this "GET" endpoint ∅ (project "FileChecksum" callback)).

Definition getHomeDirectory (this : WebHDFS) (callback : callback_t)
    : pending (option R) :=
  let endpoint := _getOperationEndpoint this "GETHOMEDIRECTORY" "" VUndefined in
  _sendRequest this "GET" endpoint ∅ (pass_body callback).

Definition setReplication (this : WebHDFS) (path replication : value)
    (callback : callback_t) : result (pending (option R)) :=
  if invalid_path path then Throw path_error
  else
    let endpoint := _getOperationEndpoint this "SETREPLICATION" (string_of path)
                      (VObj {[ "replication" := replication ]}) in
    Ok (_sendRequest this "PUT" endpoint ∅ (report callback)).

Definition modifyAclEntries (this : WebHDFS) (path aclspec : value)
    (callback : callback_t) : result (pending (option R)) :=
  if invalid_path path then Throw path_error
  else
    let endpoint := _getOperationEndpoint this "MODIFYACLENTRIES" (string_of path)
                      (VObj {[ "aclspec" := aclspec ]}) in
    Ok (_sendRequest this "PUT" endpoint ∅ (report callback)).

Definition removeAclEntries (this : WebHDFS) (path aclspec : value)
    (callback : callback_t) : result (pending (option R)) :=
  if invalid_path path then Throw path_error
  else
    let endpoint := _getOperationEndpoint this "REMOVEACLENTRIES" (string_of path)
                      (VObj {[ "aclspec" := aclspec ]}) in
    Ok (_sendRequest this "PUT" endpoint ∅ (report callback)).

Definition removeDefaultAcl (this : WebHDFS) (path : value)
    (callback : callback_t) : result (pending (option R)) :=
  if invalid_path path then Throw path_error
  else
    let endpoint := _getOperationEndpoint this "REMOVEDEFAULTACL" (string_of path)
                      VUndefined in
    Ok (_sendRequest this "PUT" endpoint ∅ (report callback)).

Definition removeAcl (this : WebHDFS) (path : value)
    (callback : callback_t) : result (pending (option R)) :=
  if invalid_path path then Throw path_error
  else
    let endpoint := _getOperationEndpoint this "REMOVEACL" (string_of path)
                      VUndefined in
    Ok (_sendRequest this "PUT" endpoint ∅ (report callback)).

Definition setAcl (this : WebHDFS) (path aclspec : value)
    (callback : callback_t) : result (pending (option R)) :=
  if invalid_path path then Throw path_error
  else
    let endpoint := _getOperationEndpoint this "SETACL" (string_of path)
                      (VObj {[ "aclspec" := aclspec ]}) in
    Ok (_sendRequest this "PUT" endpoint ∅ (report callback)).

Definition getAclStatus (this : WebHDFS) (path : value)
    (callback : callback_t) : result (pending (option R)) :=
  if invalid_path path then Throw path_error
  else
    let endpoint := _getOperationEndpoint this "GETACLSTATUS" (string_of path)
                      VUndefined in
    Ok (_sendRequest this "GET" endpoint ∅ (project "AclStatus" callback)).

Definition createSnapshot (this : WebHDFS) (path name : value)
    (callback : callback_t) : result (pending (option R)) :=
  if invalid_path path then Throw path_error
  else
    let endpoint := _getOperationEndpoint this "CREATESNAPSHOT" (string_of path)
                      (VObj {[ "snapshotname" := name ]}) in
    Ok (_sendRequest this "PUT" endpoint ∅ (pass_body callback)).

Definition deleteSnapshot (this : WebHDFS) (path name : value)
    (callback : callback_t) : result (pending (option R)) :=
  if invalid_path path then Throw path_error
  else
    let endpoint := _getOperationEndpoint this "DELETESNAPSHOT" (string_of path)
                      (VObj {[ "snapshotname" := name ]}) in
    Ok (_sendRequest this "DELETE" endpoint ∅ (report callback)).

Definition renameSnapshot (this : WebHDFS) (path oldname newname : value)
    (callback : callback_t) : result (pending (option R)) :=
  if invalid_path path then Throw path_error
  else
    let endpoint := _getOperationEndpoint this "RENAMESNAPSHOT" (string_of path)
                      (VObj {[ "oldsnapshotname" := oldname;
                               "snapshotname" := newname ]}) in
    Ok (_sendRequest this "PUT" endpoint ∅ (report callback)).

Definition getDelegationToken (this : WebHDFS) (renewer service kind : value)
    (callback : callback_t) : pending (option R) :=
  let endpoint := _getOperationEndpoint this "GETDELEGATIONTOKEN" "" VUndefined in
  _sendRequest this "GET" endpoint ∅ (project "Token" callback).

Definition getDelegationTokens (this : WebHDFS) (renewer : value)
    (callback : callback_t) : pending (option R) :=
  let endpoint := _getOperationEndpoint this "GETDELEGATIONTOKENS" "" VUndefined in
  _sendRequest this "GET" endpoint ∅ (project "Tokens" callback).

(** [function (err, res) { return callback && callback (err, res); }] *)
Definition renewDelegationToken (this : WebHDFS) (token : value)
    (callback : arg (option Error → option response → result R))
    : pending (option R) :=
  let endpoint := _getOperationEndpoint this "RENEWDELEGATIONTOKEN" "" VUndefined in
  _sendRequest this "PUT" endpoint ∅ (λ err res _, invoke callback err res).

Definition cancelDelegationToken (this : WebHDFS) (token : value)
    (callback : arg (option Error → option response → result R))
    : pending (option R) :=
  let endpoint := _getOperationEndpoint this "CANCELDELEGATIONTOKEN" "" VUndefined in
  _sendRequest this "PUT" endpoint ∅ (λ err res _, invoke callback err res).

End Operations.

(** ** [writeFile], [appendFile], [readFile] *)

(** The argument shuffle at the head of [writeFile]: the normalized
    [append], [opts] and [callback]. *)
Definition writeFile_args {F} (append opts callback : arg F)
    : value * value * arg F :=
  match append with
  | AFun f => (VBool false, VObj ∅, AFun f)
  | AVal a =>
      match a with
      | VNull | VArr _ | VObj _ => (VBool false, a, opts)
      | _ =>
          match opts with
          | AFun f => (a, VObj ∅, AFun f)
          | AVal o => (a, o, callback)
          end
      end
  end.

(** The listeners [writeFile] puts on the stream: the variable [error] and
    whether the [once] listeners for ['error'] and ['finish'] are still
    attached. *)
Record write_listeners := {
  wl_error : option Error;
  wl_on_error : bool;
  wl_on_finish : bool
}.

Definition writeFile_listeners : write_listeners :=
  {| wl_error := None; wl_on_error := true; wl_on_finish := true |}.

(** One event on the stream; the list holds the argument of
    [callback && callback (error)] when the ['finish'] listener runs. *)
Definition writeFile_on (st : write_listeners) (e : event)
    : write_listeners * list (option Error) :=
  match e with
  | EvError err =>
      if wl_on_error st then
        ({| wl_error := err; wl_on_error := false;
            wl_on_finish := wl_on_finish st |}, [])
      else (st, [])
  | EvFinish _ =>
      if wl_on_finish st then
        ({| wl_error := wl_error st; wl_on_error := wl_on_error st;
            wl_on_finish := false |}, [wl_error st])
      else (st, [])
  | EvData _ => (st, [])
  end.

Fixpoint writeFile_reports (st : write_listeners) (evs : list event)
    : list (option Error) :=
  match evs with
  | [] => []
  | e :: evs' =>
      let '(st', out) := writeFile_on st e in out ++ writeFile_reports st' evs'
  end.

(** What [readFile] hands to its callback: [callback (null, Buffer.concat
    (data))] or [callback (error)]. *)
Inductive answer :=
  | Content (bytes : string)
  | Failure (e : Error).

Record read_listeners := {
  rl_data : list string;
  rl_error : option Error;
  rl_on_error : bool;
  rl_on_finish : bool
}.

Definition readFile_listeners : read_listeners :=
  {| rl_data := []; rl_error := None; rl_on_error := true; rl_on_finish := true |}.

(** [Buffer.concat] *)
Definition Buffer_concat (chunks : list string) : string :=
  foldr String.append EmptyString chunks.

Definition readFile_on (st : read_listeners) (e : event)
    : read_listeners * list answer :=
  match e with
  | EvError err =>
      if rl_on_error st then
        ({| rl_data := rl_data st; rl_error := err; rl_on_error := false;
            rl_on_finish := rl_on_finish st |}, [])
      else (st, [])
  | EvData chunk =>
      ({| rl_data := rl_data st ++ [chunk]; rl_error := rl_error st;
          rl_on_error := rl_on_error st; rl_on_finish := rl_on_finish st |}, [])
  | EvFinish _ =>
      if rl_on_finish st then
        ({| rl_data := rl_data st; rl_error := rl_error st;
            rl_on_error := rl_on_error st; rl_on_finish := false |},
         [match rl_error st with
          | None => Content (Buffer_concat (rl_data st))
          | Some e => Failure e
          end])
      else (st, [])
  end.

Fixpoint readFile_answers (st : read_listeners) (evs : list event) : list answer :=
  match evs with
  | [] => []
  | e :: evs' =>
      let '(st', out) := readFile_on st e in out ++ readFile_answers st' evs'
  end.

Section Files.
Context `{Builtins}.

(** [writeFile (path, data, append, opts, callback)] up to its [return]:
    the callback after the shuffle, and the upload session with
    [localStream], the reader made of [data], piped into it. *)
Definition writeFile {F} (this : WebHDFS) (path : value) (localStream : nat)
    (append opts callback : arg F) : result (arg F * wstate * list effect) :=
  let '(append, opts, callback) := writeFile_args append opts callback in
  if invalid_path path then Throw (new_Error (VStr "path must be a string"))
  else
    '(st, effs) ← createWriteStream this path append opts;
    let '(st', effs') := wstep st (Pipe localStream) in
    Ok (callback, st', effs ++ effs').

(** [appendFile (path, data, opts, callback)] *)
Definition appendFile {F} (this : WebHDFS) (path : value) (localStream : nat)
    (opts callback : arg F) : result (arg F * wstate * list effect) :=
  writeFile this path localStream (AVal (VBool true)) opts callback.

(** [readFile (path, callback)] up to its end: the stream it listens on,
    for ['error'] with [once]. *)
Definition readFile (this : WebHDFS) (path : value)
    : result (gmap string value * rstate * list effect) :=
  '(params, st, effs) ← createReadStream this path VUndefined;
  Ok (params, listen OnceListener st, effs).

End Files.

(** ** Properties the further statements are stated with *)

(** The body [_parseError] looks into: a string is decoded, text that is
    not JSON counts as [null]. *)
Definition decoded_body `{Builtins} (body : value) : value :=
  match body with
  | VStr s => default VNull (JSON_parse s)
  | _ => body
  end.

(** The own [RemoteException] of a decoded body. *)
Definition envelope_of (d : value) : option value :=
  match d with
  | VObj o => o !! "RemoteException"
  | _ => None
  end.

(** A decoded body on which [hasOwnProperty] can be called and whose
    [RemoteException], if any, is truthy. *)
Definition plain_body (d : value) : Prop :=
  match d with
  | VObj o =>
      o !! "hasOwnProperty" = None ∧
      match o !! "RemoteException" with
      | Some e => truthy e = true
      | None => True
      end
  | _ => True
  end.

(** The error [_sendRequest] hands to the callback for an outcome, by
    status code. *)
Definition request_error `{Builtins} (o : outcome) : result (option Error) :=
  match o with
  | Failed err => Ok (Some err)
  | Completed res =>
      if bool_decide (statusCode res ∈ [400; 401; 402; 403; 404; 500]) then
        _parseError (body res) false
      else if bool_decide (statusCode res ∈ [200; 201]) then Ok None
      else Ok (Some (new_Error (VStr "Unexpected redirect")))
  end.

(** A callback that records its arguments. *)
Definition observe {A B} : arg (A → B → result (A * B)) :=
  AFun (λ a b, Ok (a, b)).

Definition invalid_data : Error := new_Error (VStr "Invalid data structure").

(** The URL [_getOperationEndpoint] formats when the query is [q]. *)
Definition endpoint_url `{Builtins} (this : WebHDFS) (path : string)
    (q : gmap string value) : string :=
  url_format {| protocol := protocol (_url this); hostname := hostname (_url this);
                port := port (_url this);
                pathname := _opts_path this +:+ path;
                search := Some (querystring_stringify q) |}.

(** The parameters [_sendRequest] issues a request with. *)
Definition sent_params (this : WebHDFS) (method url : string)
    : gmap string value :=
  extend (extend {[ "method" := VStr method; "url" := VStr url;
                    "json" := VBool true ]} (_requestParams this)) ∅.

(** The source piped last among the events of an upload, if any ([cur]
    when none is). *)
Fixpoint piped_from (cur : option nat) (evs : list wevent) : option nat :=
  match evs with
  | [] => cur
  | Pipe src :: evs' => piped_from (Some src) evs'
  | _ :: evs' => piped_from cur evs'
  end.

Definition piped_source (evs : list wevent) : option nat := piped_from None evs.

(** All chunks of a download session, in the order of arrival. *)
Definition all_chunks (evs : list revent) : list string :=
  omap (λ i, match i with
             | Data c | DownloadData c => Some c
             | _ => None
             end) evs.

(** The completions among the events of a download session, and the
    ['finish'] events among the events of a stream. *)
Definition completions (evs : list revent) : list unit :=
  omap (λ i, match i with
             | Complete | DownloadComplete => Some ()
             | _ => None
             end) evs.

Definition finish_events (evs : list event) : list unit :=
  omap (λ e, match e with EvFinish _ => Some () | _ => None end) evs.

Definition source_resumes (effs : list effect) : list nat :=
  omap (λ f, match f with SrcResume src => Some src | _ => None end) effs.

Definition upload_pipes (effs : list effect) : list nat :=
  omap (λ f, match f with SrcPipeUpload src => Some src | _ => None end) effs.

(** What an event does in a download whose first response is neither a
    remote-error nor a redirect. *)
Definition direct_step (i : revent) : list effect :=
  match i with
  | Data c => [Emit (EvData c)]
  | Complete => [Emit (EvFinish None)]
  | DownloadResponse _ | DownloadData _ | DownloadComplete => []
  end.

(** What an event does in a redirected download while no response of the
    [download] request is a remote-error. *)
Definition relay_step (i : revent) : list effect :=
  match i with
  | Data c | DownloadData c => [Emit (EvData c)]
  | Complete | DownloadComplete => [Emit (EvFinish None)]
  | DownloadResponse _ => []
  end.

Definition download_ok (i : revent) : bool :=
  match i with
  | DownloadResponse res => negb (_isError res)
  | _ => true
  end.

(** No ['finish'] among the events. *)
Definition no_finish (evs : list event) : bool :=
  forallb (λ e, negb (is_finish_event e)) evs.

(** The ['error'] a [once] listener stores: the argument of the first
    ['error'] event ([None] when there is none or it is [null]). *)
Definition stored_error (evs : list event) : option Error :=
  mjoin (head (error_events evs)).

(** ** Further concrete data *)

Module Cases.

Definition listing : value := VArr [Sample.file_status].

Definition ok_200_listing : response :=
  Sample.response_of 200 ∅
    (VObj {[ "FileStatuses" := VObj {[ "FileStatus" := listing ]} ]}).

Definition summary : value := VObj {[ "length" := VNum 24930 ]}.

Definition ok_200_summary : response :=
  Sample.response_of 200 ∅ (VObj {[ "ContentSummary" := summary ]}).

Definition ok_200 : response := Sample.response_of 200 ∅ VUndefined.

Definition found_302 : response := Sample.response_of 302 ∅ VUndefined.

(** A callback that ignores what it is told. *)
Definition quiet : option Error → value → result unit := λ _ _, Ok ().

(** A client built with the request parameter [timeout]. *)
Definition client_with_timeout : WebHDFS :=
  {| _opts_user := "webuser";
     _opts_path := "/webhdfs/v1";
     _url := _url Sample.client;
     _requestParams := {[ "timeout" := VNum 1000 ]} |}.

End Cases.

(** A handler that passes an error on without looking at the response. *)
Definition passes_errors {R} (h : option Error → option response → value →
                                  result (option R))
    (callback : arg (option Error → value → result R)) : Prop :=
  ∀ e res b, h (Some e) res b = invoke callback (Some e) VUndefined.

(** Unfolds a call on a valid path down to its request. *)
Ltac on_valid_path Hp :=
  unfold resolve, chmod, chown, rename, setReplication, modifyAclEntries,
    removeAclEntries, removeDefaultAcl, removeAcl, setAcl, deleteSnapshot,
    renameSnapshot, mkdir, unlink, truncate;
  rewrite ?Hp; cbn [mbind result_bind].

(** Membership of a status in a literal list, by cases. *)
Ltac status_cases :=
  rewrite ?elem_of_cons, ?elem_of_nil in *; lia.

(** * Status classifier *)

Section Classifier.

Lemma indexOf_from_found (l : list Z) (x i : Z) :
  0 ≤ i → indexOf_from i l x ≠ -1 ↔ x ∈ l.
Proof.
  revert i. induction l as [|y l IH]; intros i Hi; simpl.
  - split; [congruence | intros Hx; inversion Hx].
  - case_bool_decide as Hy.
    + subst y. split; [intros _; left | lia].
    + rewrite IH by lia. split; [by right |].
      intros Hx. apply elem_of_cons in Hx as [->|]; [congruence | done].
Qed.

Lemma indexOf_found (l : list Z) (x : Z) :
  negb (indexOf l x =? -1) = true ↔ x ∈ l.
Proof.
  rewrite negb_true_iff, Z.eqb_neq. apply indexOf_from_found. lia.
Qed.

Lemma isSuccess_spec (res : response) :
  _isSuccess res = true ↔ statusCode res ∈ [200; 201].
Proof. apply indexOf_found. Qed.

Lemma isError_spec (res : response) :
  _isError res = true ↔ statusCode res ∈ [400; 401; 402; 403; 404; 500].
Proof. apply indexOf_found. Qed.

Lemma isRedirect_spec (res : response) :
  _isRedirect res = true ↔
  statusCode res ∈ [301; 307] ∧ is_Some (headers res !! "location").
Proof.
  unfold _isRedirect. rewrite andb_true_iff, bool_decide_eq_true.
  by rewrite indexOf_found.
Qed.

Lemma redirect_not_error (res : response) :
  _isRedirect res = true → _isError res = false.
Proof.
  intros [Hs _]%isRedirect_spec. apply not_true_is_false.
  intros He%isError_spec. status_cases.
Qed.

Lemma success_not_error (res : response) :
  _isSuccess res = true → _isError res = false.
Proof.
  intros Hs%isSuccess_spec. apply not_true_is_false.
  intros He%isError_spec. status_cases.
Qed.

Lemma error_not_redirect (res : response) :
  _isError res = true → _isRedirect res = false.
Proof.
  intros He. apply not_true_is_false. intros Hr%redirect_not_error. congruence.
Qed.

(** C6. [_isSuccess] holds exactly on 200 and 201, [_isRedirect] exactly on
    301 and 307 with a [location] header, [_isError] exactly on 400, 401,
    402, 403, 404 and 500; no response is in two classes, and a response
    with any other status (or a 301/307 without [location]) is in none. *)
Theorem classifier_partition (res : response) :
  (_isSuccess res = true ↔ statusCode res = 200 ∨ statusCode res = 201) ∧
  (_isRedirect res = true ↔
     (statusCode res = 301 ∨ statusCode res = 307) ∧
     is_Some (headers res !! "location")) ∧
  (_isError res = true ↔
     statusCode res = 400 ∨ statusCode res = 401 ∨ statusCode res = 402 ∨
     statusCode res = 403 ∨ statusCode res = 404 ∨ statusCode res = 500) ∧
  (_isSuccess res && _isRedirect res = false) ∧
  (_isSuccess res && _isError res = false) ∧
  (_isRedirect res && _isError res = false) ∧
  (statusCode res ∉ [200; 201; 400; 401; 402; 403; 404; 500] →
   ¬ ((statusCode res = 301 ∨ statusCode res = 307) ∧
      is_Some (headers res !! "location")) →
   _isSuccess res = false ∧ _isRedirect res = false ∧ _isError res = false).
Proof.
  pose proof (isSuccess_spec res) as HS.
  pose proof (isRedirect_spec res) as HR.
  pose proof (isError_spec res) as HE.
  split_and!.
  - rewrite HS. status_cases.
  - rewrite HR. split; intros [Hs Hl]; (split; [status_cases | done]).
  - rewrite HE. status_cases.
  - destruct (_isSuccess res) eqn:Hs, (_isRedirect res) eqn:Hr; try done.
    apply isSuccess_spec in Hs. apply isRedirect_spec in Hr as [Hr _].
    clear HS HR HE. status_cases.
  - destruct (_isSuccess res) eqn:Hs; [|done]. by apply success_not_error.
  - destruct (_isRedirect res) eqn:Hr; [|done]. by apply redirect_not_error.
  - intros Hother Hnot. split_and!; apply not_true_is_false.
    + intros Hs%HS. apply Hother. status_cases.
    + intros [Hr Hl]%HR. apply Hnot. split; [status_cases | done].
    + intros He%HE. apply Hother. status_cases.
Qed.

End Classifier.

(** * Error parsing *)

Section ParseError.
Context `{Builtins}.

Lemma indexed_own_RemoteException (n : nat) :
  indexed_own n "RemoteException" = false.
Proof. reflexivity. Qed.

Lemma indexed_own_FileStatus (n : nat) :
  indexed_own n "FileStatus" = false.
Proof. reflexivity. Qed.

(** A body that is not an object carries no envelope. *)
Lemma parseError_not_object (body : value) (strict : bool) :
  match body with VStr _ | VObj _ => False | _ => True end →
  _parseError body strict = Ok (if strict then None else Some unknown_error).
Proof.
  destruct body as [| |b|f| | |]; try done; intros _; unfold _parseError; simpl.
  - by destruct strict.
  - by destruct strict.
  - destruct b, strict; done.
  - destruct (negb _ && _), strict; done.
  - by destruct strict.
Qed.

(** An object body without own [RemoteException]. *)
Lemma parseError_no_envelope (o : gmap string value) (strict : bool) :
  o !! "hasOwnProperty" = None →
  o !! "RemoteException" = None →
  _parseError (VObj o) strict = Ok (if strict then None else Some unknown_error).
Proof.
  intros Hm Hr. unfold _parseError; simpl. rewrite Hm, Hr; simpl.
  by destruct strict.
Qed.

(** An object body with a truthy [RemoteException]. *)
Lemma parseError_envelope (o : gmap string value) (e : value) (strict : bool) :
  o !! "hasOwnProperty" = None →
  o !! "RemoteException" = Some e →
  truthy e = true →
  _parseError (VObj o) strict = Ok (Some (new_Error (message_of e))).
Proof.
  intros Hm Hr He. unfold _parseError; simpl. rewrite Hm, Hr; simpl.
  rewrite He. destruct e; try done.
Qed.

(** An object body whose [RemoteException] is falsy: [null] is returned,
    whatever [strict] is. *)
Lemma parseError_falsy_envelope (o : gmap string value) (e : value) (strict : bool) :
  o !! "hasOwnProperty" = None →
  o !! "RemoteException" = Some e →
  truthy e = false →
  _parseError (VObj o) strict = Ok None.
Proof.
  intros Hm Hr He. unfold _parseError; simpl. rewrite Hm, Hr; simpl.
  by rewrite He.
Qed.

(** An object body with an own property [hasOwnProperty]. *)
Lemma parseError_shadowed (o : gmap string value) (strict : bool) :
  is_Some (o !! "hasOwnProperty") →
  _parseError (VObj o) strict = Throw TypeError.
Proof.
  intros [v Hv]. unfold _parseError; simpl. by rewrite Hv.
Qed.

(** A string body is decoded first; text that is not JSON carries no
    envelope. *)
Lemma parseError_not_json (s : string) (strict : bool) :
  JSON_parse s = None →
  _parseError (VStr s) strict = Ok (if strict then None else Some unknown_error).
Proof.
  intros Hs. unfold _parseError. rewrite Hs. simpl. by destruct strict.
Qed.

Lemma parseError_decoded (s : string) (v : value) (strict : bool) :
  JSON_parse s = Some v →
  is_string v = false →
  _parseError (VStr s) strict = _parseError v strict.
Proof.
  intros Hs Hv. unfold _parseError at 1. rewrite Hs.
  destruct v; try done.
Qed.

(** C7, at the failing input: the decoded body [{RemoteException: null}] in
    non-strict mode. The envelope is not a recognized one, the caller did
    not ask for strict mode, and [_parseError] returns [null] instead of
    the ["Unknown error"] error. *)
Theorem parseError_null_envelope_nonstrict :
  _parseError (VObj {[ "RemoteException" := VNull ]}) false = Ok None.
Proof.
  apply parseError_falsy_envelope with (e := VNull); done.
Qed.

End ParseError.

(** * Metadata calls: [stat], [exists], [concat] *)

Section Metadata.
Context `{Builtins}.

(** A call of [stat] passes what [stat_answer] computes to its callback. *)
Lemma stat_resolve {R} (this : WebHDFS) (path : value)
    (callback : option Error → value → result R) (o : outcome) :
  invalid_path path = false →
  resolve (stat this path callback) o =
  stat_answer this path o ≫= λ a, callback a.1 a.2.
Proof.
  intros Hp. unfold stat_answer, resolve, stat. rewrite Hp. simpl.
  destruct o as [err|res]; simpl; [done|].
  destruct (_isError res).
  - destruct (_parseError (body res) false) as [[e|]|e]; done.
  - destruct (_isSuccess res); [|done]. simpl.
    destruct (hasOwnProperty (body res) "FileStatus") as [[]|e]; simpl; [|done|done].
    destruct (get (body res) "FileStatus"); done.
Qed.

Lemma exists_resolve (this : WebHDFS) (path : value) (o : outcome) :
  invalid_path path = false →
  resolve (exists_ this path Ok) o =
  stat_answer this path o ≫= λ a,
    Ok (if bool_decide (is_Some a.1) || negb (truthy a.2) then false else true).
Proof. intros Hp. unfold exists_. by rewrite stat_resolve. Qed.

(** [stat] hands a status to its callback only for a success response
    whose body has an own property [FileStatus]. *)
Lemma stat_answer_status (this : WebHDFS) (path : value) (o : outcome)
    (stats : value) :
  invalid_path path = false →
  stat_answer this path o = Ok (None, stats) →
  truthy stats = true →
  ∃ res, o = Completed res ∧ _isSuccess res = true ∧
         hasOwnProperty (body res) "FileStatus" = Ok true ∧
         get (body res) "FileStatus" = Ok stats.
Proof.
  intros Hp Ha Ht. unfold stat_answer, resolve, stat in Ha. rewrite Hp in Ha.
  simpl in Ha. destruct o as [err|res]; simpl in Ha; [done|].
  exists res. destruct (_isError res).
  - destruct (_parseError (body res) false) as [[e|]|e]; done.
  - destruct (_isSuccess res); [|done]. simpl in Ha.
    destruct (hasOwnProperty (body res) "FileStatus") as [[]|e]; simpl in Ha;
      [|done|done].
    destruct (get (body res) "FileStatus") as [v|e]; simpl in Ha; [|done].
    by simplify_eq.
Qed.

(** [exists] on its inputs apart from the two on which the handler of
    [stat] throws. For an empty or non-string [path], [exists] throws
    ["path must be a string"] before any request. For every other [path]
    and every outcome of the request: when [stat] calls back with an error
    or with a falsy status, [exists] calls back [false]; when [stat] calls
    back with no error and a truthy status, [exists] calls back [true];
    [exists] calls back [true] only on a success response whose body has an
    own [FileStatus] that is truthy; and [exists] raises exactly where the
    handler of [stat] does. *)
Lemma exists_spec (this : WebHDFS) (path : value) (o : outcome) :
  (invalid_path path = true →
   exists_ this path Ok = Throw (new_Error (VStr "path must be a string"))) ∧
  (invalid_path path = false →
   (∀ e stats, stat_answer this path o = Ok (Some e, stats) →
      resolve (exists_ this path Ok) o = Ok false) ∧
   (∀ stats, stat_answer this path o = Ok (None, stats) →
      resolve (exists_ this path Ok) o = Ok (truthy stats)) ∧
   (resolve (exists_ this path Ok) o = Ok true →
      ∃ res stats, o = Completed res ∧ _isSuccess res = true ∧
        hasOwnProperty (body res) "FileStatus" = Ok true ∧
        get (body res) "FileStatus" = Ok stats ∧ truthy stats = true) ∧
   (∀ e, resolve (exists_ this path Ok) o = Throw e ↔
         stat_answer this path o = Throw e)).
Proof.
  split; intros Hp.
  - unfold exists_, stat. by rewrite Hp.
  - rewrite exists_resolve by done. split_and!.
    + by intros e stats ->.
    + intros stats ->. simpl. by destruct (truthy stats).
    + destruct (stat_answer this path o) as [[err stats]|e] eqn:Ha; simpl; [|done].
      destruct err as [e|]; simpl; [done|].
      destruct (truthy stats) eqn:Ht; [intros _|done].
      destruct (stat_answer_status this path o stats) as (res & ? & ? & ? & ?);
        try done.
      by exists res, stats.
    + intros e. destruct (stat_answer this path o) as [[err stats]|e']; simpl.
      * split; [|done]. by destruct (_ || _).
      * split; intros [= ->]; done.
Qed.

(** C8. [exists] raises: on a valid path, when the request is answered
    with a success status and the response has no body ([undefined], as for
    an empty body, or [null]), the handler of [stat] reads
    [res.body.hasOwnProperty] and throws a [TypeError]; the callback of
    [exists] is not called, neither with [false] nor with anything else. *)
Theorem exists_raises_without_body (this : WebHDFS) (path : value)
    (res : response) :
  invalid_path path = false →
  _isSuccess res = true →
  body res = VUndefined ∨ body res = VNull →
  resolve (exists_ this path Ok) (Completed res) = Throw TypeError.
Proof.
  intros Hp Hs Hb. unfold resolve, exists_, stat. rewrite Hp. simpl.
  rewrite (success_not_error res Hs), Hs.
  by destruct Hb as [-> | ->].
Qed.

(** C9: [concat] rejects every [sources]: a valid [path] always ends in the
    ["sources must be ..."] error, an invalid one in the path error, so no
    request is issued for any input. *)
Theorem concat_rejects_every_sources {R} (this : WebHDFS) (path sources : value)
    (callback : option Error → result R) :
  concat this path sources callback =
  Throw (new_Error (VStr (if invalid_path path then "path must be a string"
                          else "sources must be a string or an array of string"))).
Proof.
  unfold concat. destruct (invalid_path path); [done|].
  destruct sources; simpl; try done; by rewrite ?orb_true_r.
Qed.

End Metadata.

(** * Upload session *)

Section Upload.
Context `{Builtins}.

Lemma events_app (e1 e2 : list effect) :
  events (e1 ++ e2) = events e1 ++ events e2.
Proof. apply omap_app. Qed.

Lemma requests_app (e1 e2 : list effect) :
  requests (e1 ++ e2) = requests e1 ++ requests e2.
Proof. apply omap_app. Qed.

Lemma wrun_cons (st : wstate) (i : wevent) (evs : list wevent) :
  wrun st (i :: evs) =
  ((wrun (wstep st i).1 evs).1, (wstep st i).2 ++ (wrun (wstep st i).1 evs).2).
Proof.
  simpl. destruct (wstep st i) as [st1 e1]. simpl.
  by destruct (wrun st1 evs) as [st2 e2].
Qed.

Lemma wrun_app (st : wstate) (evs1 evs2 : list wevent) :
  wrun st (evs1 ++ evs2) =
  ((wrun (wrun st evs1).1 evs2).1,
   (wrun st evs1).2 ++ (wrun (wrun st evs1).1 evs2).2).
Proof.
  revert st. induction evs1 as [|i evs1 IH]; intros st.
  - simpl. by destruct (wrun st evs2).
  - rewrite <- app_comm_cons, !wrun_cons, IH. simpl. by rewrite app_assoc.
Qed.

Lemma write_session_unfold (params : gmap string value) (pre post : list wevent)
    (o : outcome) :
  write_session params pre o post =
  (wrun (write_init params) pre).2 ++
  (onFirstResponse (wrun (write_init params) pre).1 o).2 ++
  (wrun (onFirstResponse (wrun (write_init params) pre).1 o).1 post).2.
Proof.
  unfold write_session. destruct (wrun (write_init params) pre) as [st1 e1].
  simpl. destruct (onFirstResponse st1 o) as [st2 e2]. simpl.
  by destruct (wrun st2 post) as [st3 e3].
Qed.

(** [emitError] emits the pair ['error'], ['finish'] the first time and
    nothing afterwards. *)
Lemma emitError_spec (st : wstate) (err : option Error) :
  (emitError st err).2 =
    (if errorEmitted st then []
     else [Emit (EvError err); Emit (EvFinish None)]) ∧
  errorEmitted (emitError st err).1 = true ∧
  upload (emitError st err).1 = upload st ∧
  wparams (emitError st err).1 = wparams st.
Proof. done. Qed.










(** Before the [upload] request exists a session emits nothing and issues
    no request. *)
Lemma wrun_before_upload (evs : list wevent) (st : wstate) :
  upload st = false →
  upload (wrun st evs).1 = false ∧
  errorEmitted (wrun st evs).1 = errorEmitted st ∧
  wparams (wrun st evs).1 = wparams st ∧
  events (wrun st evs).2 = [] ∧
  requests (wrun st evs).2 = [].
Proof.
  revert st. induction evs as [|i evs IH]; intros st Hu; [done|].
  rewrite wrun_cons. simpl. rewrite events_app, requests_app.
  destruct i as [src| |o]; simpl.
  - destruct (IH {| errorEmitted := errorEmitted st; canResume := false;
                    stream := Some src; wparams := wparams st;
                    upload := upload st |} Hu) as (? & ? & ? & ? & ?).
    by split_and!.
  - destruct (IH st Hu) as (? & ? & ? & -> & ->).
    split_and!; try done; by destruct (stream st), (canResume st).
  - rewrite Hu. simpl. by apply IH.
Qed.

(** No handler but the first callback issues a request. *)
Lemma wrun_requests (evs : list wevent) (st : wstate) :
  requests (wrun st evs).2 = [].
Proof.
  revert st. induction evs as [|i evs IH]; intros st; [done|].
  rewrite wrun_cons. simpl. rewrite requests_app, IH, app_nil_r.
  destruct i as [src| |o]; simpl; [done| |].
  - by destruct (stream st), (canResume st).
  - destruct (upload st); [|done]. destruct o as [err|res]; simpl.
    + by destruct (errorEmitted st).
    + destruct (_isError res); [|done].
      destruct (_parseError (body res) false); [|done]. simpl.
      by destruct (errorEmitted st).
Qed.

(** Pipes and resumes of the source emit nothing and leave the session's
    flags for errors and for the [upload] request alone. *)
Lemma wrun_flow (evs : list wevent) (st : wstate) :
  forallb is_flow evs = true →
  upload (wrun st evs).1 = upload st ∧
  errorEmitted (wrun st evs).1 = errorEmitted st ∧
  events (wrun st evs).2 = [].
Proof.
  revert st. induction evs as [|i evs IH]; intros st Hf; [done|].
  simpl in Hf. apply andb_true_iff in Hf as [Hi Hf].
  rewrite wrun_cons. simpl. rewrite events_app.
  destruct i as [src| |o]; simpl; [| |done].
  - destruct (IH {| errorEmitted := errorEmitted st; canResume := false;
                    stream := Some src; wparams := wparams st;
                    upload := upload st |} Hf) as (? & ? & ?).
    by split_and!.
  - destruct (IH st Hf) as (? & ? & ->).
    split_and!; try done; by destruct (stream st), (canResume st).
Qed.

Lemma onFirstResponse_redirect (st : wstate) (res : response) :
  _isRedirect res = true →
  upload (onFirstResponse st (Completed res)).1 = true ∧
  errorEmitted (onFirstResponse st (Completed res)).1 = errorEmitted st ∧
  events (onFirstResponse st (Completed res)).2 = [] ∧
  requests (onFirstResponse st (Completed res)).2 =
    [redirect_params (wparams st) res].
Proof.
  intros Hr. unfold onFirstResponse. rewrite Hr, (redirect_not_error res Hr).
  by destruct (stream st).
Qed.

Lemma onFirstResponse_no_redirect (st : wstate) (o : outcome) :
  match o with Completed res => _isRedirect res = false | Failed _ => True end →
  upload (onFirstResponse st o).1 = upload st ∧
  requests (onFirstResponse st o).2 = [].
Proof.
  intros Hr. destruct o as [err|res]; simpl.
  - by destruct (errorEmitted st).
  - rewrite Hr. destruct (_isError res); [|done]. unfold emitError_of.
    destruct (_parseError (body res) false); [|done].
    simpl. by destruct (errorEmitted st).
Qed.

(** The second request of an upload goes to the [location] of the
    redirect. *)
Lemma redirect_params_url (params : gmap string value) (res : response)
    (loc : string) :
  headers res !! "location" = Some loc →
  redirect_params params res !! "url" = Some (VStr loc).
Proof.
  intros Hl. unfold redirect_params, extend. rewrite Hl. simpl.
  apply lookup_union_Some_l, map_lookup_filter_Some.
  split; [apply lookup_singleton_eq | done].
Qed.

(** The requests an upload session issues after the first one. *)
Lemma write_session_requests (params : gmap string value)
    (pre post : list wevent) (o : outcome) :
  requests (write_session params pre o post) =
  match o with
  | Completed res =>
      if _isRedirect res then [redirect_params params res] else []
  | Failed _ => []
  end.
Proof.
  rewrite write_session_unfold, !requests_app, !wrun_requests, app_nil_r.
  destruct (wrun_before_upload pre (write_init params)) as (_ & _ & Hp & _ & _);
    [done|]. simpl.
  destruct o as [err|res].
  - by apply onFirstResponse_no_redirect.
  - destruct (_isRedirect res) eqn:Hr.
    + destruct (onFirstResponse_redirect (wrun (write_init params) pre).1 res Hr)
        as (_ & _ & _ & ->). by rewrite Hp.
    + by apply (onFirstResponse_no_redirect _ (Completed res)).
Qed.

(** The events of an upload session whose first request failed. *)
Lemma write_session_first_failure (params : gmap string value)
    (pre post : list wevent) (o : outcome) :
  match o with Completed res => _isError res = true | Failed _ => True end →
  events (write_session params pre o post) =
  match o with
  | Failed err => [EvError (Some err); EvFinish None; EvError (Some err)]
  | Completed res =>
      match _parseError (body res) false with
      | Ok e => [EvError e; EvFinish None]
      | Throw _ => []
      end
  end.
Proof.
  intros Ho. rewrite write_session_unfold, !events_app.
  destruct (wrun_before_upload pre (write_init params)) as (Hu & He & _ & -> & _);
    [done|]. simpl in He. simpl.
  set (st1 := (wrun (write_init params) pre).1) in *.
  assert (upload (onFirstResponse st1 o).1 = false) as Hu2.
  { destruct (onFirstResponse_no_redirect st1 o) as [-> _]; [|done].
    destruct o as [|res]; [done|]. by apply error_not_redirect. }
  destruct (wrun_before_upload post _ Hu2) as (_ & _ & _ & -> & _).
  rewrite app_nil_r. destruct o as [err|res]; simpl.
  - by rewrite He.
  - rewrite (error_not_redirect res Ho), Ho. unfold emitError_of.
    destruct (_parseError (body res) false); [|done]. simpl. by rewrite He.
Qed.

(** [createWriteStream] and [createReadStream] start the sessions the
    statements below are about. *)
Lemma createWriteStream_valid (this : WebHDFS) (path append opts : value) :
  invalid_path path = false →
  ∃ params, createWriteStream this path append opts =
            Ok (write_init params, [Request params]).
Proof.
  intros Hp. unfold createWriteStream.
  destruct append; rewrite Hp; by eexists.
Qed.

Lemma createReadStream_valid (this : WebHDFS) (path opts : value) :
  invalid_path path = false →
  ∃ params, createReadStream this path opts =
            Ok (params, read_init, [Request params]).
Proof. intros Hp. unfold createReadStream. rewrite Hp. by eexists. Qed.

(** C10. An upload session whose first response is neither a redirect nor
    a remote-error status emits no event at all, neither ['error'] nor
    ['finish'], whatever else happens to it, and issues no second request. *)
Theorem unexpected_first_response_is_silent (params : gmap string value)
    (pre post : list wevent) (res : response) :
  _isRedirect res = false →
  _isError res = false →
  events (write_session params pre (Completed res) post) = [] ∧
  requests (write_session params pre (Completed res) post) = [].
Proof.
  intros Hr He. rewrite write_session_requests, Hr. split; [|done].
  rewrite write_session_unfold, !events_app.
  destruct (wrun_before_upload pre (write_init params)) as (Hu & _ & _ & -> & _);
    [done|].
  simpl. rewrite Hr, He. simpl.
  by destruct (wrun_before_upload post _ Hu) as (_ & _ & _ & -> & _).
Qed.

(** C4. In an upload session whose first response is a redirect and whose
    second response has a success status, the one event is ['finish']: it
    carries the [location] header of the second response when there is one
    and no payload otherwise. *)
Theorem upload_finish_carries_location (params : gmap string value)
    (pre flow1 flow2 : list wevent) (res1 res2 : response) :
  _isRedirect res1 = true →
  _isSuccess res2 = true →
  forallb is_flow flow1 = true →
  forallb is_flow flow2 = true →
  events (write_session params pre (Completed res1)
            (flow1 ++ UploadResponse (Completed res2) :: flow2)) =
  [EvFinish (headers res2 !! "location")].
Proof.
  intros Hr Hs Hf1 Hf2. rewrite write_session_unfold, !events_app.
  destruct (wrun_before_upload pre (write_init params)) as (_ & _ & _ & -> & _);
    [done|].
  set (st1 := (wrun (write_init params) pre).1).
  destruct (onFirstResponse_redirect st1 res1 Hr) as (Hu & _ & -> & _).
  set (st2 := (onFirstResponse st1 (Completed res1)).1) in *.
  rewrite wrun_app. cbn [fst snd]. rewrite events_app.
  destruct (wrun_flow flow1 st2 Hf1) as (Hu1 & _ & ->).
  rewrite Hu in Hu1. set (st3 := (wrun st2 flow1).1) in *.
  rewrite wrun_cons. cbn [fst snd]. rewrite events_app.
  unfold wstep at 2. unfold wstep at 1. rewrite Hu1.
  unfold onUploadResponse. rewrite (success_not_error res2 Hs). cbn [fst snd].
  by destruct (wrun_flow flow2 st3 Hf2) as (_ & _ & ->).
Qed.

End Upload.

(** * Download session *)

Section Download.
Context `{Builtins}.

Lemma rrun_cons (st : rstate) (i : revent) (evs : list revent) :
  rrun st (i :: evs) =
  ((rrun (rstep st i).1 evs).1, (rstep st i).2 ++ (rrun (rstep st i).1 evs).2).
Proof.
  simpl. destruct (rstep st i) as [st1 e1]. simpl.
  by destruct (rrun st1 evs) as [st2 e2].
Qed.


Lemma after_response_unfold (params : gmap string value) (l : error_listener)
    (res : response) (evs : list revent) :
  after_response params l res evs =
  (onResponse params (listen l read_init) res).2 ++
  (rrun (onResponse params (listen l read_init) res).1 evs).2.
Proof.
  unfold after_response.
  destruct (onResponse params (listen l read_init) res) as [st1 e1].
  simpl. by destruct (rrun st1 evs).
Qed.

(** The way to the ['response'] event: an answer the transport does not
    follow is handed to the handler; one it follows is not, and the session
    goes on with the next answer; a request that fails ends the session
    with the transport's ['error']. *)
Lemma read_session_delivered (params : gmap string value) (l : error_listener)
    (res : response) (more : list arrival) (evs : list revent) :
  request_follows params res = false →
  read_session params l (Response res :: more) evs =
  after_response params l res evs.
Proof.
  intros Hf. unfold read_session, after_response. simpl. rewrite Hf.
  destruct (onResponse params (listen l read_init) res) as [st1 e1].
  by destruct (rrun st1 evs).
Qed.

Lemma read_session_followed (params : gmap string value) (l : error_listener)
    (res : response) (more : list arrival) (evs : list revent) :
  request_follows params res = true →
  read_session params l (Response res :: more) evs =
  Follow res :: read_session params l more evs.
Proof.
  intros Hf. unfold read_session. simpl. rewrite Hf.
  by destruct (arrive params (listen l read_init) more) as [[st1|] e1].
Qed.

Lemma read_session_refused (params : gmap string value) (l : error_listener)
    (err : Error) (more : list arrival) (evs : list revent) :
  read_session params l (Refused err :: more) evs =
  match l with
  | NoListener => [Unhandled (Some err)]
  | _ => [Emit (EvError (Some err))]
  end.
Proof. by destruct l. Qed.

Lemma crashed_app (e1 e2 : list effect) :
  crashed (e1 ++ e2) = crashed e1 || crashed e2.
Proof. apply existsb_app. Qed.

(** What the replacement listener does and leaves alone. *)
Lemma onErrorData_spec (st : rstate) (chunk : string) :
  requests (onErrorData st chunk).2 = [] ∧
  data_events (events (onErrorData st chunk).2) = [] ∧
  req_data (onErrorData st chunk).1 = req_data st ∧
  download_data (onErrorData st chunk).1 = download_data st ∧
  uncaught (onErrorData st chunk).1 =
    uncaught st || crashed (onErrorData st chunk).2.
Proof.
  unfold onErrorData, emit_error.
  destruct (_parseError (VStr chunk) false) as [e|e]; simpl.
  - destruct (req_error st); simpl; rewrite ?orb_true_r, ?orb_false_r;
      try done; by destruct (uncaught st).
  - by rewrite orb_true_r.
Qed.

Lemma emit_req_data_spec (st : rstate) (chunk : string) :
  requests (emit_req_data st chunk).2 = [] ∧
  req_data (emit_req_data st chunk).1 = req_data st ∧
  download_data (emit_req_data st chunk).1 = download_data st ∧
  uncaught (emit_req_data st chunk).1 =
    uncaught st || crashed (emit_req_data st chunk).2.
Proof.
  unfold emit_req_data.
  destruct (req_data st) eqn:Hq; simpl; rewrite ?orb_false_r; try done.
  destruct (onErrorData_spec st chunk) as (? & ? & ? & ? & ?).
  by rewrite Hq in *.
Qed.

(** One event: no handler installed after the first response issues a
    request or touches [req]'s ['data'] listeners; the [download] request,
    once made, stays; and the session is over exactly when an exception
    went uncaught. *)
Lemma rstep_spec (st : rstate) (i : revent) :
  requests (rstep st i).2 = [] ∧
  req_data (rstep st i).1 = req_data st ∧
  (is_Some (download_data st) ↔ is_Some (download_data (rstep st i).1)) ∧
  uncaught (rstep st i).1 = uncaught st || crashed (rstep st i).2.
Proof.
  unfold rstep. destruct (uncaught st) eqn:Hu; [simpl; by rewrite Hu|].
  destruct i as [c| |res|c|].
  - destruct (emit_req_data_spec st c) as (? & ? & Hd & Hc).
    rewrite Hd, Hc, Hu. done.
  - simpl. by rewrite Hu.
  - destruct (download_data st) as [d|] eqn:Hd; simpl; rewrite ?Hu, ?Hd;
      [|done].
    destruct (_isError res); simpl; rewrite ?Hu, ?Hd; split_and!; try done;
      split; by eauto.
  - destruct (download_data st) as [[]|] eqn:Hd; simpl;
      rewrite ?Hu, ?Hd; try done.
    + destruct (emit_req_data_spec st c) as (? & ? & Hd' & Hc).
      rewrite Hd', Hc, Hu, Hd. done.
    + destruct (emit_req_data_spec st c) as (? & ? & Hd' & Hc).
      rewrite Hd', Hc, Hu, Hd. done.
    + destruct (onErrorData_spec st c) as (? & ? & ? & Hd' & Hc).
      rewrite Hd', Hc, Hu, Hd. done.
  - simpl. rewrite Hu. by destruct (download_data st).
Qed.

Lemma rrun_spec (evs : list revent) (st : rstate) :
  requests (rrun st evs).2 = [] ∧
  req_data (rrun st evs).1 = req_data st ∧
  (is_Some (download_data st) ↔ is_Some (download_data (rrun st evs).1)) ∧
  uncaught (rrun st evs).1 = uncaught st || crashed (rrun st evs).2.
Proof.
  revert st. induction evs as [|i evs IH]; intros st.
  - simpl. by rewrite orb_false_r.
  - rewrite rrun_cons. cbn [fst snd].
    destruct (rstep_spec st i) as (Hr & Hq & Hd & Hu).
    destruct (IH (rstep st i).1) as (Hr' & Hq' & Hd' & Hu').
    rewrite requests_app, crashed_app, Hr, Hr', Hq', Hq, Hu', Hu, orb_assoc.
    split_and!; try done. by rewrite Hd.
Qed.

Lemma onResponse_error (params : gmap string value) (st : rstate)
    (res : response) :
  _isError res = true →
  onResponse params st res = (with_req_data EmitParsedError st, []).
Proof. intros He. unfold onResponse. by rewrite He. Qed.

Lemma onResponse_redirect (params : gmap string value) (st : rstate)
    (res : response) :
  _isRedirect res = true →
  onResponse params st res =
  (with_download_data ProxyToReq st, [Request params]).
Proof.
  intros Hr. unfold onResponse. by rewrite (redirect_not_error res Hr), Hr.
Qed.


(** The requests the handlers of a download issue: the parameters of the
    first request again on a redirect, none otherwise. *)
Lemma after_response_requests (params : gmap string value) (l : error_listener)
    (res : response) (evs : list revent) :
  requests (after_response params l res evs) =
  if _isRedirect res then [params] else [].
Proof.
  rewrite after_response_unfold, requests_app.
  destruct (rrun_spec evs (onResponse params (listen l read_init) res).1)
    as (-> & _).
  rewrite app_nil_r. unfold onResponse. destruct (_isError res) eqn:He.
  - by rewrite (error_not_redirect res He).
  - by destruct (_isRedirect res).
Qed.




(** While the consumer listens with [on] and [_parseError] returns on
    every chunk, a session stays in the state a remote-error first response
    puts it in: each chunk is parsed alone and emitted as an ['error']. *)
Lemma rrun_first_error (evs : list revent) (st : rstate) :
  req_data st = EmitParsedError →
  download_data st = None →
  req_error st = OnListener →
  uncaught st = false →
  forallb parses (first_chunks evs) = true →
  rrun st evs = (st, flat_map after_first_error evs).
Proof.
  destruct st as [q d l u]. simpl. intros -> -> -> ->.
  induction evs as [|i evs IH]; [done|]. intros Hp.
  rewrite rrun_cons. destruct i as [c| |res|c|]; simpl in *;
    try (by rewrite IH).
  apply andb_true_iff in Hp as [Hc Hp]. unfold parses in Hc.
  unfold rstep, emit_req_data, onErrorData, parsed. simpl.
  destruct (_parseError (VStr c) false) as [e|e]; [|done].
  simpl. by rewrite IH.
Qed.

(** And so it does after a remote-error response of the [download]
    request. *)
Lemma rrun_download_error (evs : list revent) (st : rstate) :
  req_data st = ToConsumer →
  download_data st = Some EmitParsedError →
  req_error st = OnListener →
  uncaught st = false →
  forallb parses (download_chunks evs) = true →
  rrun st evs = (st, flat_map after_download_error evs).
Proof.
  destruct st as [q d l u]. simpl. intros -> -> -> ->.
  induction evs as [|i evs IH]; [done|]. intros Hp.
  rewrite rrun_cons. destruct i as [c| |res|c|]; simpl in *;
    try (by rewrite IH).
  - unfold rstep, with_download_data. simpl.
    destruct (_isError res); simpl; by rewrite IH.
  - apply andb_true_iff in Hp as [Hc Hp]. unfold parses in Hc.
    unfold rstep, onErrorData, parsed. simpl.
    destruct (_parseError (VStr c) false) as [e|e]; [|done].
    simpl. by rewrite IH.
Qed.

Lemma after_first_error_events (evs : list revent) :
  crashed (flat_map after_first_error evs) = false ∧
  data_events (events (flat_map after_first_error evs)) = [] ∧
  error_events (events (flat_map after_first_error evs)) =
    parsed <$> first_chunks evs.
Proof.
  induction evs as [|i evs (IH1 & IH2 & IH3)]; [done|]. simpl.
  rewrite crashed_app, events_app.
  unfold data_events, error_events in *. rewrite !omap_app, IH1, IH2, IH3.
  by destruct i.
Qed.

Lemma after_download_error_events (evs : list revent) :
  data_events (events (flat_map after_download_error evs)) = first_chunks evs ∧
  error_events (events (flat_map after_download_error evs)) =
    parsed <$> download_chunks evs.
Proof.
  induction evs as [|i evs (IH2 & IH3)]; [done|]. simpl.
  rewrite events_app.
  unfold data_events, error_events in *. rewrite !omap_app, IH2, IH3.
  by destruct i.
Qed.

(** A remote-error first response whose body comes in no chunk: whatever
    the consumer's listeners, the state stays and nothing but ['finish'] is
    emitted. *)
Lemma rrun_error_no_chunk (evs : list revent) (st : rstate) :
  req_data st = EmitParsedError →
  download_data st = None →
  uncaught st = false →
  first_chunks evs = [] →
  rrun st evs = (st, flat_map after_first_error evs).
Proof.
  intros Hq Hd Hu. induction evs as [|i evs IH]; [done|]. intros Hc.
  rewrite rrun_cons. unfold rstep. rewrite Hu.
  destruct i as [c| |res|c|]; simpl in *; rewrite ?Hd; try done;
    cbn [fst snd]; by rewrite IH.
Qed.

(** A chunk of the [download] request is passed on at once while its
    response was no remote-error. *)
Lemma download_chunk_relayed (l : error_listener) (chunk : string) :
  rstep (with_download_data ProxyToReq (listen l read_init))
        (DownloadData chunk) =
  (with_download_data ProxyToReq (listen l read_init), [Emit (EvData chunk)]).
Proof. done. Qed.

End Download.

(** * The sessions against the claims *)

Section Sessions.
Context `{Builtins}.



(** Once an exception went uncaught nothing more happens. *)
Lemma rrun_uncaught (evs : list revent) (st : rstate) :
  uncaught st = true → rrun st evs = (st, []).
Proof.
  intros Hu. induction evs as [|i evs IH]; [done|].
  rewrite rrun_cons. unfold rstep. rewrite Hu. cbn [fst snd]. by rewrite IH.
Qed.


(** C2. The [download] request of a download is issued with the very
    parameters of the first request, whatever the redirect says: its [url]
    is the one [createReadStream] computed, the [OPEN] endpoint, and not
    the [location] of the response. The handler meets a redirect only when
    the transport is told not to follow redirects by itself. *)
Theorem createReadStream_redirect_reuses_endpoint (this : WebHDFS)
    (path opts : value) (l : error_listener) (res : response)
    (more : list arrival) (evs : list revent) :
  invalid_path path = false →
  request_follows (open_request this path opts) res = false →
  _isRedirect res = true →
  createReadStream this path opts =
    Ok (open_request this path opts, read_init,
        [Request (open_request this path opts)]) ∧
  requests (read_session (open_request this path opts) l
              (Response res :: more) evs) =
    [open_request this path opts] ∧
  ((_requestParams this !! "url" = None ∨
    _requestParams this !! "url" = Some VUndefined) →
   open_request this path opts !! "url" =
     Some (VStr (_getOperationEndpoint this "OPEN" (string_of path) opts))).
Proof.
  intros Hp Hf Hr. split_and!.
  - unfold createReadStream. by rewrite Hp.
  - by rewrite read_session_delivered, after_response_requests, Hr.
  - intros Hu. unfold open_request, extend.
    apply lookup_union_Some_raw. right. split; [|done].
    apply map_lookup_filter_None. destruct Hu as [Hu|Hu].
    + by left.
    + right. intros v Hv. rewrite Hu in Hv. by simplify_eq.
Qed.

(** C3. A remote-error first response of a download: every chunk of the
    body is parsed alone and emitted as an ['error'] of its own, nothing is
    accumulated. A consumer that listens with [on] gets as many ['error']
    events as the body has chunks, each with what [_parseError] makes of
    that chunk (["Unknown error"] for a piece of JSON text); for one that
    listens with [once] the second chunk's ['error'] finds no listener and
    is thrown out of the handler, after which nothing more happens. *)
Theorem download_parses_each_chunk_alone (params : gmap string value)
    (res : response) (more : list arrival) (evs rest : list revent)
    (c1 c2 : string) :
  request_follows params res = false →
  _isError res = true →
  (forallb parses (first_chunks evs) = true →
   read_session params OnListener (Response res :: more) evs =
     flat_map after_first_error evs ∧
   data_events (events (read_session params OnListener (Response res :: more)
                          evs)) = [] ∧
   error_events (events (read_session params OnListener (Response res :: more)
                           evs)) = parsed <$> first_chunks evs) ∧
  (parses c1 = true → parses c2 = true →
   read_session params OnceListener (Response res :: more)
     (Data c1 :: Data c2 :: rest) =
   [Emit (EvError (parsed c1)); ReqEnd; Unhandled (parsed c2)]).
Proof.
  intros Hf He. rewrite !read_session_delivered by done. split.
  - intros Hp.
    assert (after_response params OnListener res evs =
            flat_map after_first_error evs) as ->.
    { rewrite after_response_unfold, onResponse_error by done.
      cbn [fst snd]. by rewrite rrun_first_error. }
    split; [done|]. apply after_first_error_events.
  - intros Hc1 Hc2. rewrite after_response_unfold, onResponse_error by done.
    cbn [fst snd]. rewrite !rrun_cons. unfold parses, parsed in *.
    unfold rstep, emit_req_data, onErrorData. simpl.
    destruct (_parseError (VStr c1) false) as [e1|e1]; [|done].
    simpl. destruct (_parseError (VStr c2) false) as [e2|e2]; [|done].
    simpl. by rewrite rrun_uncaught.
Qed.

(** The same for the [download] request of a redirected download whose
    response is a remote-error. *)
Lemma download_request_parses_each_chunk_alone (params : gmap string value)
    (res res2 : response) (evs : list revent) :
  _isRedirect res = true →
  _isError res2 = true →
  forallb parses (download_chunks evs) = true →
  after_response params OnListener res (DownloadResponse res2 :: evs) =
    Request params :: flat_map after_download_error evs ∧
  error_events (events (flat_map after_download_error evs)) =
    parsed <$> download_chunks evs.
Proof.
  intros Hr He Hp. split; [|apply after_download_error_events].
  rewrite after_response_unfold, onResponse_redirect by done.
  cbn [fst snd]. rewrite rrun_cons. unfold rstep. simpl. rewrite He.
  cbn [fst snd]. by rewrite rrun_download_error.
Qed.

(** C5. A remote-error first response of a download whose body comes in
    no chunk: the session does not fail. No ['error'] is emitted and no
    exception is raised, whatever the consumer's listeners; no second
    request is issued; and when the request completes the one event is
    ['finish']. *)
Theorem download_error_status_without_chunks (params : gmap string value)
    (l : error_listener) (res : response) (more : list arrival)
    (evs : list revent) :
  request_follows params res = false →
  _isError res = true →
  first_chunks evs = [] →
  error_events (events (read_session params l (Response res :: more) evs)) =
    [] ∧
  crashed (read_session params l (Response res :: more) evs) = false ∧
  requests (read_session params l (Response res :: more) evs) = [] ∧
  events (read_session params l (Response res :: more) [Complete]) =
    [EvFinish None].
Proof.
  intros Hf He Hc. rewrite !read_session_delivered by done.
  rewrite after_response_requests, (error_not_redirect res He).
  assert (∀ evs', first_chunks evs' = [] →
            after_response params l res evs' =
            flat_map after_first_error evs') as Hs.
  { intros evs' Hc'. rewrite after_response_unfold, onResponse_error by done.
    cbn [fst snd]. by rewrite rrun_error_no_chunk. }
  rewrite (Hs evs Hc), (Hs [Complete] eq_refl).
  destruct (after_first_error_events evs) as (-> & _ & ->).
  by rewrite Hc.
Qed.

(** The part of the second-request rule that holds: the handlers of an
    upload issue the second request exactly on a redirect, to its
    [location]; those of a download issue theirs exactly on a redirect the
    transport hands over; a first request that fails in transport is
    followed by no other. *)
Lemma second_request_iff_redirect (up down : gmap string value)
    (pre post : list wevent) (o : outcome) (l : error_listener)
    (res : response) (err : Error) (more : list arrival) (evs : list revent) :
  requests (write_session up pre o post) =
    match o with
    | Completed r => if _isRedirect r then [redirect_params up r] else []
    | Failed _ => []
    end ∧
  (request_follows down res = false →
   requests (read_session down l (Response res :: more) evs) =
     if _isRedirect res then [down] else []) ∧
  read_session down l (Refused err :: more) evs =
    match l with
    | NoListener => [Unhandled (Some err)]
    | _ => [Emit (EvError (Some err))]
    end.
Proof.
  split_and!.
  - apply write_session_requests.
  - intros Hf. by rewrite read_session_delivered, after_response_requests.
  - apply read_session_refused.
Qed.

End Sessions.

(** * The claims at concrete inputs *)

Section Examples.
#[local] Existing Instance Sample.builtins.
Import Sample.


(** An upload whose first request is refused by the network: the error,
    ['finish'], and the transport's own ['error'] after them. *)
Example upload_refused_emits_error_twice :
  events (write_session create_params [Pipe 0%nat] (Failed refused) []) =
    [EvError (Some refused); EvFinish None; EvError (Some refused)].
Proof. reflexivity. Qed.

(** A download whose first request is refused: the transport's ['error'],
    and no ['finish']. *)
Example download_refused :
  read_session open_params OnListener [Refused refused] [] =
    [Emit (EvError (Some refused))].
Proof. reflexivity. Qed.

(** C2 at the failing input: [createReadStream ('/f')] on a client told
    not to follow redirects, first response 307 with [location] naming the
    datanode. The second request is issued with the parameters of the
    first, so its [url] is the namenode endpoint and not the redirect
    target. *)
Lemma createReadStream_redirect_reuses_endpoint_witness :
  createReadStream client_no_follow (VStr "/f") VUndefined =
    Ok (open_params_no_follow, read_init, [Request open_params_no_follow]) ∧
  request_follows open_params_no_follow redirect_307 = false ∧
  _isRedirect redirect_307 = true ∧
  headers redirect_307 !! "location" = Some datanode_url ∧
  requests (read_session open_params_no_follow OnListener
              [Response redirect_307] []) = [open_params_no_follow] ∧
  open_params_no_follow !! "url" =
    Some (VStr "http://localhost:50070/webhdfs/v1/f?op=OPEN&user.name=webuser").
Proof.
  destruct (createReadStream_redirect_reuses_endpoint client_no_follow
              (VStr "/f") VUndefined OnListener redirect_307 [] [])
    as (Hc & Hr & Hu); [reflexivity..|].
  assert (open_request client_no_follow (VStr "/f") VUndefined =
          open_params_no_follow) as Hp by (vm_compute; reflexivity).
  rewrite Hp in Hc, Hr, Hu.
  split_and!; [exact Hc | reflexivity | reflexivity | reflexivity | exact Hr |].
  rewrite Hu by (left; reflexivity). vm_compute. reflexivity.
Defined.

(** On the default client the handler never meets that redirect: the
    transport follows it by itself, the datanode's answer is the first
    response the handler gets, and its chunks are passed on. *)
Example createReadStream_default_follows :
  createReadStream client (VStr "/f") VUndefined =
    Ok (open_params, read_init, [Request open_params]) ∧
  request_follows open_params redirect_307 = true ∧
  read_session open_params OnListener
    [Response redirect_307; Response (response_of 200 ∅ VUndefined)]
    [Data "ab"; Complete] =
  [Follow redirect_307; Emit (EvData "ab"); Emit (EvFinish None)].
Proof. split_and!; vm_compute; reflexivity. Qed.

(** The upload path, for comparison: its second request goes to the
    redirect target. *)
Example createWriteStream_redirect_follows_location :
  request_follows create_params redirect_307 = false ∧
  (λ p, p !! "url") <$>
    requests (write_session create_params [Pipe 0%nat] (Completed redirect_307) []) =
  [Some (VStr datanode_url)].
Proof. split; vm_compute; reflexivity. Qed.

(** C3 at the failing input: the body of a 404 delivered in two chunks
    gives a consumer that listens with [on] two ['error'] events, neither
    with the message of the envelope; one that listens with [once], as
    [readFile] does, gets the first, and the second is thrown. *)
Lemma download_parses_each_chunk_alone_witness :
  request_follows open_params status_404 = false ∧
  _isError status_404 = true ∧
  events (read_session open_params OnListener [Response status_404]
            [Data not_found_head; Data not_found_tail; Complete]) =
    [EvError (Some unknown_error); EvError (Some unknown_error); EvFinish None] ∧
  read_session open_params OnceListener [Response status_404]
    [Data not_found_head; Data not_found_tail; Complete] =
    [Emit (EvError (Some unknown_error)); ReqEnd;
     Unhandled (Some unknown_error)].
Proof.
  destruct (download_parses_each_chunk_alone open_params status_404 []
              [Data not_found_head; Data not_found_tail; Complete] [Complete]
              not_found_head not_found_tail) as [Hon Honce];
    [reflexivity | reflexivity |].
  split_and!; [reflexivity | reflexivity | |].
  - destruct (Hon eq_refl) as (-> & _). vm_compute. reflexivity.
  - rewrite (Honce eq_refl eq_refl). vm_compute. reflexivity.
Defined.

(** C5 at the failing input: a download whose first response is a 404
    without body chunks ends with ['finish'] and no ['error']. *)
Lemma download_error_status_without_chunks_witness :
  request_follows open_params status_404 = false ∧
  _isError status_404 = true ∧
  error_events (events (read_session open_params OnListener
                          [Response status_404] [Complete])) = [] ∧
  events (read_session open_params OnListener [Response status_404]
            [Complete]) = [EvFinish None].
Proof.
  destruct (download_error_status_without_chunks open_params OnListener
              status_404 [] [Complete]) as (He & _ & _ & Hf);
    [reflexivity | reflexivity | reflexivity |].
  split_and!; [reflexivity | reflexivity | exact He | exact Hf].
Defined.

(** [createWriteStream ('/f')] on the default client: a [PUT] to the
    [CREATE] endpoint. *)
Example createWriteStream_default :
  createWriteStream client (VStr "/f") VUndefined VUndefined =
  Ok (write_init create_params, [Request create_params]).
Proof. vm_compute. reflexivity. Qed.

(** C8 at the failing input: [exists ('/f')] answered with a 200 that has
    no body. *)
Lemma exists_raises_without_body_witness :
  invalid_path (VStr "/f") = false ∧
  _isSuccess (response_of 200 ∅ VUndefined) = true ∧
  resolve (exists_ client (VStr "/f") Ok)
          (Completed (response_of 200 ∅ VUndefined)) = Throw TypeError.
Proof.
  split_and!; [reflexivity | reflexivity |].
  apply (exists_raises_without_body client (VStr "/f")
           (response_of 200 ∅ VUndefined)); [reflexivity | reflexivity |].
  left. reflexivity.
Defined.

(** [exists] on a 200 response that carries a [FileStatus], and on an
    empty path, which the guard of [stat] refuses. *)
Example exists_true :
  resolve (exists_ client (VStr "/f") Ok) (Completed ok_200_status) = Ok true.
Proof. reflexivity. Qed.

Example exists_empty_path_raises :
  exists_ client (VStr "") Ok = Throw (new_Error (VStr "path must be a string")).
Proof. reflexivity. Qed.

(** C9 at the documented inputs: a string and an array of strings. *)
Example concat_rejects_string :
  concat client (VStr "/a") (VStr "/b") Ok =
  Throw (new_Error (VStr "sources must be a string or an array of string")).
Proof. reflexivity. Qed.

Example concat_rejects_array :
  concat client (VStr "/a") (VArr [VStr "/b"; VStr "/c"]) Ok =
  Throw (new_Error (VStr "sources must be a string or an array of string")).
Proof. reflexivity. Qed.

(** C6 at status 204, which is in no class. *)
Lemma classifier_partition_witness :
  _isSuccess no_content_204 = false ∧ _isRedirect no_content_204 = false ∧
  _isError no_content_204 = false.
Proof.
  apply (classifier_partition no_content_204).
  - simpl. rewrite !elem_of_cons, elem_of_nil. lia.
  - simpl. intros [[?|?] _]; lia.
Defined.

(** C10 on a 204 first response. *)
Lemma unexpected_first_response_witness :
  events (write_session create_params [Pipe 0%nat] (Completed no_content_204)
            [SrcResumed]) = [] ∧
  requests (write_session create_params [Pipe 0%nat] (Completed no_content_204)
              [SrcResumed]) = [].
Proof.
  apply unexpected_first_response_is_silent; reflexivity.
Defined.

(** C4 on the two scenarios: a 201 with [location], a 201 without. *)
Lemma upload_finish_witness :
  events (write_session create_params [Pipe 0%nat] (Completed redirect_307)
            ([] ++ UploadResponse (Completed created_201_next) :: [])) =
    [EvFinish (headers created_201_next !! "location")] ∧
  headers created_201_next !! "location" = Some "http://datanode/next" ∧
  events (write_session create_params [Pipe 0%nat] (Completed redirect_307)
            ([] ++ UploadResponse (Completed created_201) :: [])) =
    [EvFinish (headers created_201 !! "location")] ∧
  headers created_201 !! "location" = None.
Proof.
  split_and!; [| reflexivity | | reflexivity];
    apply upload_finish_carries_location; reflexivity.
Defined.


End Examples.

(** * Endpoints and options *)

Section Endpoints.
Context `{Builtins}.

Lemma lookup_extend (target src : gmap string value) (k : string) :
  extend target src !! k =
  match src !! k with
  | Some v => if is_undefined v then target !! k else Some v
  | None => target !! k
  end.
Proof.
  unfold extend. rewrite lookup_union, map_lookup_filter.
  destruct (src !! k) as [v|]; simpl.
  - destruct (is_undefined v) eqn:Hv.
    + rewrite option_guard_False by (simpl; congruence). simpl.
      by destruct (target !! k).
    + rewrite option_guard_True by done. simpl. by destruct (target !! k).
  - by destruct (target !! k).
Qed.

Lemma extend_empty (target : gmap string value) : extend target ∅ = target.
Proof.
  apply map_eq. intros k. by rewrite lookup_extend, lookup_empty.
Qed.

Lemma endpoint_unfold (this : WebHDFS) (operation path : string) (params : value) :
  _getOperationEndpoint this operation path params =
  endpoint_url this path (endpoint_query this operation params).
Proof. done. Qed.

Lemma endpoint_query_falsy (this : WebHDFS) (operation : string) (params : value) :
  truthy params = false →
  endpoint_query this operation params =
  {[ "op" := VStr operation; "user.name" := VStr (_opts_user this) ]}.
Proof.
  intros Hp. unfold endpoint_query, extend_value. rewrite Hp. simpl.
  apply extend_empty.
Qed.

(** X1. The URL of an operation is formatted from the client's base path
    followed by [path] and from a query that holds [op], [user.name] and
    the caller's parameters: a parameter with a defined value is in the
    query as given, also when it is named [op] or [user.name]; one whose
    value is [undefined] is left out; without parameters the query is
    [op] and [user.name] alone. *)
Theorem getOperationEndpoint_query (this : WebHDFS) (operation path : string)
    (o : gmap string value) (none : value) :
  _getOperationEndpoint this operation path (VObj o) =
    endpoint_url this path (endpoint_query this operation (VObj o)) ∧
  (∀ k v, o !! k = Some v → is_undefined v = false →
          endpoint_query this operation (VObj o) !! k = Some v) ∧
  ((o !! "op" = None ∨ o !! "op" = Some VUndefined) →
   endpoint_query this operation (VObj o) !! "op" = Some (VStr operation)) ∧
  ((o !! "user.name" = None ∨ o !! "user.name" = Some VUndefined) →
   endpoint_query this operation (VObj o) !! "user.name" =
     Some (VStr (_opts_user this))) ∧
  (∀ k, k ≠ "op" → k ≠ "user.name" →
        (o !! k = None ∨ o !! k = Some VUndefined) →
        endpoint_query this operation (VObj o) !! k = None) ∧
  (truthy none = false →
   _getOperationEndpoint this operation path none =
     endpoint_url this path
       {[ "op" := VStr operation; "user.name" := VStr (_opts_user this) ]}).
Proof.
  assert (∀ k, endpoint_query this operation (VObj o) !! k =
               match o !! k with
               | Some v =>
                   if is_undefined v then
                     ({[ "op" := VStr operation;
                         "user.name" := VStr (_opts_user this) ]}
                        : gmap string value) !! k
                   else Some v
               | None =>
                   ({[ "op" := VStr operation;
                       "user.name" := VStr (_opts_user this) ]}
                      : gmap string value) !! k
               end) as Hq.
  { intros k. unfold endpoint_query, extend_value. simpl. apply lookup_extend. }
  split_and!.
  - done.
  - intros k v Hk Hv. by rewrite Hq, Hk, Hv.
  - intros [Hk|Hk]; rewrite Hq, Hk; done.
  - intros [Hk|Hk]; rewrite Hq, Hk; done.
  - intros k Hop Hun [Hk|Hk]; rewrite Hq, Hk; simpl;
      by rewrite lookup_insert_ne, lookup_singleton_ne.
  - intros Hn. by rewrite endpoint_unfold, endpoint_query_falsy.
Qed.

Lemma check_options_present (o : gmap string value) (ps : list string) :
  o !! "hasOwnProperty" = None →
  check_options (VObj o) ps =
  match filter (λ p, o !! p = None) ps with
  | [] => Ok ()
  | p :: _ =>
      Throw (new_Error (VStr
        ("Unable to create WebHDFS client: missing option " +:+ p)))
  end.
Proof.
  intros Hs. induction ps as [|p ps IH]; [done|].
  simpl. rewrite Hs. simpl. rewrite filter_cons.
  destruct (o !! p) as [v|] eqn:Hp.
  - rewrite bool_decide_eq_true_2 by eauto.
    destruct (decide (Some v = None)); [done|]. apply IH.
  - rewrite bool_decide_eq_false_2 by (intros [? ?]; done).
    by destruct (decide (None = None)).
Qed.

(** X2. The constructor's option check on an object of options (without an
    own [hasOwnProperty]): it passes exactly when [user], [host], [port]
    and [path] are all own properties, and otherwise throws naming the
    first of them, in this order, that is missing. The options
    [createClient] builds always pass: every option the caller leaves
    out, or sets to [undefined], has its default. *)
Theorem constructor_option_check (o : gmap string value) (opts : value) :
  (o !! "hasOwnProperty" = None →
   check_options (VObj o) required_options =
   match filter (λ p, o !! p = None) required_options with
   | [] => Ok ()
   | p :: _ =>
       Throw (new_Error (VStr
         ("Unable to create WebHDFS client: missing option " +:+ p)))
   end) ∧
  ((own_enumerable opts !! "hasOwnProperty" = None ∨
    own_enumerable opts !! "hasOwnProperty" = Some VUndefined) →
   check_options (createClient_options opts) required_options = Ok ()).
Proof.
  split; [apply check_options_present|].
  intros Hs. unfold createClient_options, extend_value.
  rewrite check_options_present.
  - assert (∀ p, p ∈ required_options →
              is_Some (extend {[ "user" := VStr "webuser";
                                 "host" := VStr "localhost";
                                 "port" := VStr "50070";
                                 "path" := VStr "/webhdfs/v1" ]}
                              (own_enumerable opts) !! p)) as Hall.
    { intros p Hp. rewrite lookup_extend.
      destruct (own_enumerable opts !! p) as [v|]; [destruct (is_undefined v)|];
        eauto; unfold required_options in Hp;
        rewrite !elem_of_cons, elem_of_nil in Hp;
        destruct Hp as [->|[->|[->|[->|[]]]]]; by eexists. }
    destruct (filter _ required_options) as [|p ps] eqn:Hf; [done|].
    assert (p ∈ filter (λ p, extend {[ "user" := VStr "webuser";
                                       "host" := VStr "localhost";
                                       "port" := VStr "50070";
                                       "path" := VStr "/webhdfs/v1" ]}
                                    (own_enumerable opts) !! p = None)
                       required_options) as Hin by (rewrite Hf; left).
    apply list_elem_of_filter in Hin as [Hn Hp].
    destruct (Hall p Hp) as [v Hv]. congruence.
  - rewrite lookup_extend. by destruct Hs as [->| ->].
Qed.

End Endpoints.

(** * Metadata calls, all of them *)

Section Dispatcher.
Context `{Builtins}.

Lemma parseError_after_decoding (body : value) (strict : bool) :
  _parseError body strict =
  (has ← (if truthy (decoded_body body)
          then hasOwnProperty (decoded_body body) "RemoteException"
          else Ok false);
   error ← (if has : bool then get (decoded_body body) "RemoteException"
            else Ok (if strict then VNull
                     else VObj {[ "message" := VStr "Unknown error" ]}));
   if truthy error then
     message ← get error "message"; Ok (Some (new_Error message))
   else Ok None).
Proof.
  unfold _parseError, decoded_body. by destruct body.
Qed.

(** X3. On every body whose decoded form allows the [hasOwnProperty] call
    and whose [RemoteException], if present, is truthy, [_parseError]
    returns the error made of the envelope's [message] when the decoded
    body is an object with an own [RemoteException], whatever [strict] is;
    otherwise ["Unknown error"] in non-strict mode and [null] in strict
    mode. Text that is not JSON, and JSON that is not an object, count as
    bodies without envelope. *)
Theorem parseError_on_plain_body (body : value) (strict : bool) :
  plain_body (decoded_body body) →
  _parseError body strict =
  Ok (match envelope_of (decoded_body body) with
      | Some e => Some (new_Error (message_of e))
      | None => if strict then None else Some unknown_error
      end).
Proof.
  intros Hp. rewrite parseError_after_decoding.
  destruct (decoded_body body) as [| |b|f|s|l|o]; simpl in *.
  - by destruct strict.
  - by destruct strict.
  - destruct b, strict; done.
  - destruct (negb _ && _), strict; done.
  - destruct (negb (String.eqb s "")), strict; done.
  - by destruct strict.
  - destruct Hp as [-> He]. simpl.
    destruct (o !! "RemoteException") as [e|]; simpl.
    + rewrite He. by destruct e.
    + by destruct strict.
Qed.

Lemma isError_decide (res : response) :
  _isError res = bool_decide (statusCode res ∈ [400; 401; 402; 403; 404; 500]).
Proof.
  destruct (_isError res) eqn:He; symmetry.
  - by apply bool_decide_eq_true, isError_spec.
  - apply bool_decide_eq_false. intros Hs%isError_spec. congruence.
Qed.

Lemma isSuccess_decide (res : response) :
  _isSuccess res = bool_decide (statusCode res ∈ [200; 201]).
Proof.
  destruct (_isSuccess res) eqn:He; symmetry.
  - by apply bool_decide_eq_true, isSuccess_spec.
  - apply bool_decide_eq_false. intros Hs%isSuccess_spec. congruence.
Qed.

Lemma sendRequest_report {R} (this : WebHDFS) (method url : string)
    (callback : arg (option Error → value → result R)) (o : outcome) :
  onComplete (_sendRequest this method url ∅ (report callback)) o =
  request_error o ≫= λ e, invoke callback e VUndefined.
Proof.
  destruct o as [err|res]; simpl; [done|].
  rewrite isError_decide, isSuccess_decide.
  destruct (bool_decide (statusCode res ∈ [400; 401; 402; 403; 404; 500])).
  - done.
  - by destruct (bool_decide (statusCode res ∈ [200; 201])).
Qed.

Lemma sendRequest_params {R} (this : WebHDFS) (method url : string)
    (callback : option Error → option response → value → result R) :
  req_params (_sendRequest this method url ∅ callback) =
  sent_params this method url.
Proof. done. Qed.

(** X4. The calls that report an error only. For a valid path and every
    outcome of the request, the callback of [chmod], [chown], [rename],
    [setReplication], the ACL calls, [deleteSnapshot], [renameSnapshot],
    [mkdir], [unlink] and [truncate] is called once with: the transport's
    error when the request failed; what [_parseError] makes of the body
    when the status is 400, 401, 402, 403, 404 or 500; no error when the
    status is 200 or 201; and the error ["Unexpected redirect"] on every
    other status. *)
Theorem report_only_calls {R} (this : WebHDFS) (path a b : value)
    (callback : arg (option Error → value → result R))
    (rest : tail (option Error → value → result R)) (o : outcome) :
  invalid_path path = false →
  let reported (cb : arg (option Error → value → result R)) :=
    request_error o ≫= λ e, invoke cb e VUndefined in
  resolve (chmod this path a callback) o = reported callback ∧
  resolve (chown this path a b callback) o = reported callback ∧
  resolve (rename this path a callback) o = reported callback ∧
  resolve (setReplication this path a callback) o = reported callback ∧
  resolve (modifyAclEntries this path a callback) o = reported callback ∧
  resolve (removeAclEntries this path a callback) o = reported callback ∧
  resolve (removeDefaultAcl this path callback) o = reported callback ∧
  resolve (removeAcl this path callback) o = reported callback ∧
  resolve (setAcl this path a callback) o = reported callback ∧
  resolve (deleteSnapshot this path a callback) o = reported callback ∧
  resolve (renameSnapshot this path a b callback) o = reported callback ∧
  resolve (mkdir this path rest) o = reported (shift_undefined VNull rest).2 ∧
  resolve (unlink this path rest) o = reported (shift_undefined VNull rest).2 ∧
  resolve (truncate this path rest) o =
    reported (shift_undefined (VNum 0) rest).2.
Proof.
  intros Hp reported. unfold reported.
  split_and!; on_valid_path Hp; try apply sendRequest_report;
    destruct (shift_undefined _ rest); apply sendRequest_report.
Qed.

(** X5. The optional argument of [mkdir], [unlink], [truncate] and
    [symlink]. Called with the callback in its place, each issues the
    request and installs the handler of the full call with the default
    ([0755], [false], [0], [false]); a falsy argument in the full call is
    replaced by the same default. *)
Theorem optional_argument_defaults {R} (this : WebHDFS) (path dest x : value)
    (f : option Error → value → result R) :
  mkdir this path (Short (AFun f)) =
    mkdir this path (Full (VStr "0755") (AFun f)) ∧
  unlink this path (Short (AFun f)) =
    unlink this path (Full (VBool false) (AFun f)) ∧
  truncate this path (Short (AFun f)) =
    truncate this path (Full (VNum 0) (AFun f)) ∧
  symlink this path dest (Short (AFun f)) =
    symlink this path dest (Full (VBool false) (AFun f)) ∧
  (truthy x = false →
   mkdir this path (Full x (AFun f)) =
     mkdir this path (Full (VStr "0755") (AFun f)) ∧
   unlink this path (Full x (AFun f)) =
     unlink this path (Full (VBool false) (AFun f)) ∧
   truncate this path (Full x (AFun f)) =
     truncate this path (Full (VNum 0) (AFun f)) ∧
   symlink this path dest (Full x (AFun f)) =
     symlink this path dest (Full (VBool false) (AFun f))).
Proof.
  split_and!; try done.
  intros Hx. unfold mkdir, unlink, truncate, symlink, shift_undefined, or_default.
  rewrite Hx. done.
Qed.

End Dispatcher.

Section Projections.
Context `{Builtins}.

Lemma sendRequest_cases {R} (this : WebHDFS) (method url : string)
    (h : option Error → option response → value → result R) (o : outcome) :
  onComplete (_sendRequest this method url ∅ h) o =
  match o with
  | Failed err => h (Some err) None VUndefined
  | Completed res =>
      if bool_decide (statusCode res ∈ [400; 401; 402; 403; 404; 500]) then
        e ← _parseError (body res) false; h e None VUndefined
      else if bool_decide (statusCode res ∈ [200; 201]) then
        h None (Some res) (body res)
      else h (Some (new_Error (VStr "Unexpected redirect"))) (Some res) (body res)
  end.
Proof.
  destruct o as [err|res]; simpl; [done|].
  by rewrite isError_decide, isSuccess_decide.
Qed.

Lemma sendRequest_error {R} (this : WebHDFS) (method url : string)
    (h : option Error → option response → value → result (option R))
    (callback : arg (option Error → value → result R)) (o : outcome) (e : Error) :
  passes_errors h callback →
  request_error o = Ok (Some e) →
  onComplete (_sendRequest this method url ∅ h) o =
  invoke callback (Some e) VUndefined.
Proof.
  intros Hh He. rewrite sendRequest_cases. destruct o as [err|res]; simpl in He.
  - simplify_eq. apply Hh.
  - destruct (bool_decide (statusCode res ∈ [400; 401; 402; 403; 404; 500])).
    + rewrite He. simpl. apply Hh.
    + destruct (bool_decide (statusCode res ∈ [200; 201])); simplify_eq.
      apply Hh.
Qed.

Lemma sendRequest_success {R} (this : WebHDFS) (method url : string)
    (h : option Error → option response → value → result R) (res : response) :
  _isSuccess res = true →
  onComplete (_sendRequest this method url ∅ h) (Completed res) =
  h None (Some res) (body res).
Proof.
  intros Hs. simpl. by rewrite (success_not_error res Hs), Hs.
Qed.

Lemma project_passes_errors {R} (field : string)
    (callback : arg (option Error → value → result R)) :
  passes_errors (project field callback) callback.
Proof. done. Qed.

Lemma pass_body_passes_errors {R}
    (callback : arg (option Error → value → result R)) :
  passes_errors (pass_body callback) callback.
Proof. done. Qed.

Lemma project_object (field : string) (res : response) (b : gmap string value) :
  body res = VObj b →
  b !! "hasOwnProperty" = None →
  project field observe None (Some res) (body res) =
  Ok (Some (match b !! field with
            | Some x => (None, x)
            | None => (Some invalid_data, VUndefined)
            end)).
Proof.
  intros Hb Hs. unfold project. rewrite Hb. simpl. rewrite Hs. simpl.
  by destruct (b !! field).
Qed.

(** X6. [readdir] on a valid path. An outcome that [_sendRequest] reports
    as an error reaches the callback as that error, without listing. A
    success response whose body is an object with an own [FileStatuses]
    object gives the callback that object's own [FileStatus] as the
    listing, and ["Invalid data structure"] when either level is missing;
    and a listing is handed over only for a 200 or 201 response. *)
Theorem readdir_contract (this : WebHDFS) (path : value) (o : outcome) :
  invalid_path path = false →
  (∀ e, request_error o = Ok (Some e) →
        resolve (readdir this path observe) o = Ok (Some (Some e, VUndefined))) ∧
  (∀ res b, o = Completed res → _isSuccess res = true → body res = VObj b →
     b !! "hasOwnProperty" = None →
     match b !! "FileStatuses" with
     | Some (VObj s) =>
         s !! "hasOwnProperty" = None →
         resolve (readdir this path observe) o =
         Ok (Some (match s !! "FileStatus" with
                   | Some files => (None, files)
                   | None => (Some invalid_data, VUndefined)
                   end))
     | Some _ => True
     | None =>
         resolve (readdir this path observe) o =
         Ok (Some (Some invalid_data, VUndefined))
     end) ∧
  (∀ files, resolve (readdir this path observe) o = Ok (Some (None, files)) →
     ∃ res, o = Completed res ∧ (statusCode res = 200 ∨ statusCode res = 201)).
Proof.
  intros Hp. unfold resolve, readdir. rewrite Hp. cbn [mbind result_bind].
  split_and!.
  - intros e He. by rewrite (sendRequest_error _ _ _ _ observe o e).
  - intros res b -> Hs Hb Hn. rewrite sendRequest_success by done.
    rewrite Hb. simpl. rewrite Hn. simpl.
    destruct (b !! "FileStatuses") as [[| | | | | |s]|] eqn:Hf; try done.
    intros Hsn. rewrite bool_decide_eq_true_2 by eauto. simpl.
    rewrite Hsn. simpl. by destruct (s !! "FileStatus").
  - intros files. rewrite sendRequest_cases. destruct o as [err|res]; [done|].
    destruct (bool_decide (statusCode res ∈ [400; 401; 402; 403; 404; 500])).
    { by destruct (_parseError (body res) false) as [[e|]|e]. }
    destruct (bool_decide (statusCode res ∈ [200; 201])) eqn:Hs; [|done].
    intros _. exists res. split; [done|].
    apply bool_decide_eq_true in Hs. clear -Hs. status_cases.
Qed.

(** X7. The calls that hand over a part of the body: [getContentSummary],
    [getFileChecksum], [getAclStatus] (on a valid path),
    [getDelegationToken] and [getDelegationTokens] give the callback the
    own property [ContentSummary], [FileChecksum], [AclStatus], [Token],
    [Tokens] of a success response's body, and ["Invalid data structure"]
    when the body lacks it; [createSnapshot] and [getHomeDirectory] give it
    the body as it is. Each passes an error of the request on as it is. *)
Theorem body_calls (this : WebHDFS) (path x y z : value) (o : outcome) :
  invalid_path path = false →
  (∀ e, request_error o = Ok (Some e) →
     let failed := Ok (Some (Some e, VUndefined)) in
     resolve (getContentSummary this path observe) o = failed ∧
     resolve (getFileChecksum this path observe) o = failed ∧
     resolve (getAclStatus this path observe) o = failed ∧
     onComplete (getDelegationToken this x y z observe) o = failed ∧
     onComplete (getDelegationTokens this x observe) o = failed ∧
     resolve (createSnapshot this path x observe) o = failed ∧
     onComplete (getHomeDirectory this observe) o = failed) ∧
  (∀ res b, o = Completed res → _isSuccess res = true → body res = VObj b →
     b !! "hasOwnProperty" = None →
     let field k := Ok (Some (match b !! k with
                              | Some v => (None, v)
                              | None => (Some invalid_data, VUndefined)
                              end)) in
     resolve (getContentSummary this path observe) o = field "ContentSummary" ∧
     resolve (getFileChecksum this path observe) o = field "FileChecksum" ∧
     resolve (getAclStatus this path observe) o = field "AclStatus" ∧
     onComplete (getDelegationToken this x y z observe) o = field "Token" ∧
     onComplete (getDelegationTokens this x observe) o = field "Tokens") ∧
  (∀ res, o = Completed res → _isSuccess res = true →
     resolve (createSnapshot this path x observe) o = Ok (Some (None, body res)) ∧
     onComplete (getHomeDirectory this observe) o = Ok (Some (None, body res))).
Proof.
  intros Hp.
  unfold resolve, getContentSummary, getFileChecksum, getAclStatus,
    getDelegationToken, getDelegationTokens, createSnapshot, getHomeDirectory.
  rewrite Hp. cbn [mbind result_bind]. split_and!.
  - intros e He. cbv zeta.
    split_and!; by rewrite (sendRequest_error _ _ _ _ observe o e).
  - intros res b -> Hs Hb Hn. cbv zeta.
    rewrite !sendRequest_success by done.
    split_and!; by apply project_object.
  - intros res -> Hs. by rewrite !sendRequest_success by done.
Qed.

(** X8. The delegation-token calls send nothing of their arguments: for
    every [renewer], [service], [kind] and [token], the request is the
    [GET] or [PUT] of the operation on the client's base path, with a query
    that holds [op] and [user.name] only. *)
Theorem delegation_token_arguments_unused {R} (this : WebHDFS)
    (renewer service kind token : value)
    (callback : arg (option Error → value → result R))
    (callback' : arg (option Error → option response → result R)) :
  let url operation :=
    endpoint_url this ""
      {[ "op" := VStr operation; "user.name" := VStr (_opts_user this) ]} in
  req_params (getDelegationToken this renewer service kind callback) =
    sent_params this "GET" (url "GETDELEGATIONTOKEN") ∧
  req_params (getDelegationTokens this renewer callback) =
    sent_params this "GET" (url "GETDELEGATIONTOKENS") ∧
  req_params (renewDelegationToken this token callback') =
    sent_params this "PUT" (url "RENEWDELEGATIONTOKEN") ∧
  req_params (cancelDelegationToken this token callback') =
    sent_params this "PUT" (url "CANCELDELEGATIONTOKEN").
Proof.
  intros url. unfold url, getDelegationToken, getDelegationTokens,
    renewDelegationToken, cancelDelegationToken.
  rewrite !sendRequest_params, !endpoint_unfold, !endpoint_query_falsy by done.
  done.
Qed.

End Projections.

(** * Upload session: flow control and the second response *)

Section UploadFlow.
Context `{Builtins}.

Lemma wrun_stream (evs : list wevent) (st : wstate) :
  stream (wrun st evs).1 = piped_from (stream st) evs ∧
  source_resumes (wrun st evs).2 = [] ∧
  upload_pipes (wrun st evs).2 = [].
Proof.
  revert st. induction evs as [|i evs IH]; intros st; [done|].
  rewrite wrun_cons. cbn [fst snd].
  unfold source_resumes, upload_pipes in *. rewrite !omap_app.
  destruct (IH (wstep st i).1) as (-> & -> & ->). rewrite !app_nil_r.
  destruct i as [src| |o]; simpl; [done| |].
  - by destruct (stream st), (canResume st).
  - destruct (upload st); [|done]. destruct o as [err|res]; simpl.
    + by destruct (errorEmitted st).
    + destruct (_isError res); [|done].
      destruct (_parseError (body res) false); [|done]. simpl.
      by destruct (errorEmitted st).
Qed.

Lemma wrun_held (evs : list wevent) (st : wstate) :
  upload st = false →
  (is_Some (stream st) → canResume st = false) →
  upload (wrun st evs).1 = false ∧
  (is_Some (stream (wrun st evs).1) → canResume (wrun st evs).1 = false).
Proof.
  revert st. induction evs as [|i evs IH]; intros st Hu Hc; [done|].
  rewrite wrun_cons. cbn [fst snd].
  destruct i as [s| |o]; simpl; [by apply IH.. |].
  rewrite Hu. by apply IH.
Qed.

Lemma onFirstResponse_flow (st : wstate) (o : outcome) :
  source_resumes (onFirstResponse st o).2 =
    match o with
    | Completed res =>
        if _isRedirect res then option_list (stream st) else []
    | Failed _ => []
    end ∧
  upload_pipes (onFirstResponse st o).2 =
    match o with
    | Completed res =>
        if _isRedirect res then option_list (stream st) else []
    | Failed _ => []
    end.
Proof.
  destruct o as [err|res]; unfold onFirstResponse.
  - simpl. by destruct (errorEmitted st).
  - destruct (_isRedirect res) eqn:Hr.
    + rewrite (redirect_not_error res Hr). by destruct (stream st).
    + destruct (_isError res); [|done]. unfold emitError_of.
      destruct (_parseError (body res) false); [|done].
      simpl. by destruct (errorEmitted st).
Qed.

(** X9. The source of an upload is held until the redirect is known.
    Before the first response the session neither pipes the source into a
    request nor resumes it, and a ['resume'] of a piped source is undone
    ([flowing] is set back to [false]). Over the whole session the source
    is piped into the second request and resumed once, on a redirect, and
    never otherwise; it is the source piped last before the response. *)
Theorem upload_source_is_held (params : gmap string value)
    (pre post : list wevent) (o : outcome) (src : nat) :
  source_resumes (wrun (write_init params) pre).2 = [] ∧
  upload_pipes (wrun (write_init params) pre).2 = [] ∧
  (piped_source pre = Some src →
   (wstep (wrun (write_init params) pre).1 SrcResumed).2 = [SrcStopFlowing src]) ∧
  source_resumes (write_session params pre o post) =
    match o with
    | Completed res =>
        if _isRedirect res then option_list (piped_source pre) else []
    | Failed _ => []
    end ∧
  upload_pipes (write_session params pre o post) =
    source_resumes (write_session params pre o post).
Proof.
  destruct (wrun_stream pre (write_init params)) as (Hs & Hr & Hp).
  simpl in Hs. fold (piped_source pre) in Hs.
  destruct (wrun_held pre (write_init params)) as [_ Hc]; [done | by intros [? ?] |].
  assert (source_resumes (write_session params pre o post) =
          match o with
          | Completed res =>
              if _isRedirect res then option_list (piped_source pre) else []
          | Failed _ => []
          end ∧
          upload_pipes (write_session params pre o post) =
          match o with
          | Completed res =>
              if _isRedirect res then option_list (piped_source pre) else []
          | Failed _ => []
          end) as [Hsr Hup].
  { rewrite write_session_unfold. unfold source_resumes, upload_pipes in *.
    rewrite !omap_app, Hr, Hp.
    destruct (wrun_stream post
                (onFirstResponse (wrun (write_init params) pre).1 o).1)
      as (_ & Hr2 & Hp2).
    unfold source_resumes, upload_pipes in *. rewrite Hr2, Hp2, !app_nil_r.
    destruct (onFirstResponse_flow (wrun (write_init params) pre).1 o)
      as [Hf1 Hf2].
    unfold source_resumes, upload_pipes in *. rewrite Hf1, Hf2, Hs. done. }
  split_and!; try done.
  - intros Hsrc. simpl. rewrite Hs, Hsrc. rewrite Hc; [done|].
    rewrite Hs, Hsrc. by eexists.
  - by rewrite Hsr, Hup.
Qed.

Lemma wrun_no_pipe (evs : list wevent) (st : wstate) :
  upload st = false → stream st = None → piped_from None evs = None →
  wrun st evs = (st, []).
Proof.
  revert st. induction evs as [|i evs IH]; intros st Hu Hs Hp; [done|].
  destruct i as [s| |o]; simpl in *.
  - exfalso. clear -Hp. revert Hp. generalize s.
    induction evs as [|[s'| |o] evs IH]; intros s0 Hp; simpl in *; eauto; done.
  - rewrite Hs. by rewrite IH.
  - rewrite Hu. by rewrite IH.
Qed.

(** X10. A redirect that arrives while no source is piped: the second
    request is issued to the redirect target, and the callback then fails
    with a [TypeError] (there is no stream to pipe), without event. *)
Theorem redirect_without_source_raises (params : gmap string value)
    (pre : list wevent) (res : response) :
  _isRedirect res = true →
  piped_source pre = None →
  write_session params pre (Completed res) [] =
  [Request (redirect_params params res); Raise TypeError].
Proof.
  intros Hr Hp. unfold write_session.
  rewrite wrun_no_pipe by done. unfold onFirstResponse. rewrite Hr. done.
Qed.

(** The events of a session from the second response on. *)
Lemma second_response_events (params : gmap string value)
    (pre flow1 flow2 : list wevent) (res1 : response) (o2 : outcome) :
  _isRedirect res1 = true →
  forallb is_flow flow1 = true →
  forallb is_flow flow2 = true →
  ∃ st, errorEmitted st = false ∧
    events (write_session params pre (Completed res1)
              (flow1 ++ UploadResponse o2 :: flow2)) =
    events (onUploadResponse st o2).2.
Proof.
  intros Hr Hf1 Hf2. rewrite write_session_unfold, !events_app.
  destruct (wrun_before_upload pre (write_init params))
    as (_ & He0 & _ & -> & _); [done|].
  set (st1 := (wrun (write_init params) pre).1) in *.
  destruct (onFirstResponse_redirect st1 res1 Hr) as (Hu & He1 & -> & _).
  set (st2 := (onFirstResponse st1 (Completed res1)).1) in *.
  rewrite wrun_app. cbn [fst snd]. rewrite events_app.
  destruct (wrun_flow flow1 st2 Hf1) as (Hu1 & He2 & ->).
  rewrite Hu in Hu1. set (st3 := (wrun st2 flow1).1) in *.
  exists st3. split; [by rewrite He2, He1, He0|].
  rewrite wrun_cons. cbn [fst snd]. rewrite events_app.
  unfold wstep at 2. unfold wstep at 1. rewrite Hu1.
  destruct (wrun_flow flow2 (onUploadResponse st3 o2).1 Hf2) as (_ & _ & ->).
  by rewrite app_nil_r.
Qed.

(** X11. The second response of an upload is not checked for success:
    every response that has no remote-error status (a 204 or a 302 as well
    as a 201) ends the session with the one event ['finish'], carrying the
    response's [location] header if it has one. *)
Theorem upload_finish_without_success_check (params : gmap string value)
    (pre flow1 flow2 : list wevent) (res1 res2 : response) :
  _isRedirect res1 = true →
  _isError res2 = false →
  forallb is_flow flow1 = true →
  forallb is_flow flow2 = true →
  events (write_session params pre (Completed res1)
            (flow1 ++ UploadResponse (Completed res2) :: flow2)) =
  [EvFinish (headers res2 !! "location")].
Proof.
  intros Hr He Hf1 Hf2.
  destruct (second_response_events params pre flow1 flow2 res1
              (Completed res2) Hr Hf1 Hf2) as (st & _ & ->).
  simpl. by rewrite He.
Qed.

(** X12. A failing second request of an upload: when it fails in transport
    the session emits that error and then ['finish']; when its response has
    a remote-error status the session emits what [_parseError] returns on
    its body and then ['finish'] (and nothing if [_parseError] throws). *)
Theorem upload_second_failure (params : gmap string value)
    (pre flow1 flow2 : list wevent) (res1 : response) (o2 : outcome) :
  _isRedirect res1 = true →
  forallb is_flow flow1 = true →
  forallb is_flow flow2 = true →
  match o2 with Completed res2 => _isError res2 = true | Failed _ => True end →
  events (write_session params pre (Completed res1)
            (flow1 ++ UploadResponse o2 :: flow2)) =
  match o2 with
  | Failed err => [EvError (Some err); EvFinish None]
  | Completed res2 =>
      match _parseError (body res2) false with
      | Ok e => [EvError e; EvFinish None]
      | Throw _ => []
      end
  end.
Proof.
  intros Hr Hf1 Hf2 Ho.
  destruct (second_response_events params pre flow1 flow2 res1 o2 Hr Hf1 Hf2)
    as (st & Hst & ->).
  destruct o2 as [err|res2]; simpl.
  - by rewrite Hst.
  - rewrite Ho. destruct (_parseError (body res2) false); [|done].
    simpl. by rewrite Hst.
Qed.

End UploadFlow.

(** * Download session: relaying *)

Section DownloadRelay.
Context `{Builtins}.

Lemma rrun_direct (l : error_listener) (evs : list revent) :
  rrun (listen l read_init) evs =
  (listen l read_init, flat_map direct_step evs).
Proof.
  induction evs as [|i evs IH]; [done|].
  rewrite rrun_cons. by destruct i; simpl; rewrite IH.
Qed.

Lemma direct_step_events (evs : list revent) :
  data_events (events (flat_map direct_step evs)) = first_chunks evs ∧
  error_events (events (flat_map direct_step evs)) = [].
Proof.
  induction evs as [|i evs [IH1 IH2]]; [done|]. simpl.
  rewrite events_app. unfold data_events, error_events in *.
  rewrite !omap_app, IH1, IH2. by destruct i.
Qed.

Lemma after_response_direct (params : gmap string value) (l : error_listener)
    (res : response) (evs : list revent) :
  _isError res = false →
  _isRedirect res = false →
  after_response params l res evs = flat_map direct_step evs.
Proof.
  intros He Hr. rewrite after_response_unfold. unfold onResponse.
  rewrite He, Hr. cbn [fst snd]. by rewrite rrun_direct.
Qed.

(** X13. A download whose first response is neither a remote-error nor a
    redirect passes every chunk of the first request on as ['data'], in
    the order of arrival and unchanged, emits ['finish'] when the request
    completes, issues no second request and emits no ['error'], whatever
    the consumer's listeners. *)
Theorem download_direct_relay (params : gmap string value) (l : error_listener)
    (res : response) (evs : list revent) :
  _isError res = false →
  _isRedirect res = false →
  after_response params l res evs = flat_map direct_step evs ∧
  data_events (events (after_response params l res evs)) = first_chunks evs ∧
  error_events (events (after_response params l res evs)) = [] ∧
  requests (after_response params l res evs) = [].
Proof.
  intros He Hr.
  pose proof (after_response_direct params l res evs He Hr) as Hs.
  split_and!; [done | | |].
  - rewrite Hs. apply direct_step_events.
  - rewrite Hs. apply direct_step_events.
  - by rewrite after_response_requests, Hr.
Qed.

Lemma rrun_relay (l : error_listener) (evs : list revent) :
  forallb download_ok evs = true →
  rrun (with_download_data ProxyToReq (listen l read_init)) evs =
  (with_download_data ProxyToReq (listen l read_init),
   flat_map relay_step evs).
Proof.
  induction evs as [|i evs IH]; [done|]. simpl.
  intros [Hi Hevs]%andb_true_iff. specialize (IH Hevs).
  destruct i as [c| |res|c|]; simpl in *; rewrite ?IH; try done.
  apply negb_true_iff in Hi. unfold rstep. simpl. rewrite Hi. by rewrite IH.
Qed.

Lemma relay_step_events (evs : list revent) :
  data_events (events (flat_map relay_step evs)) = all_chunks evs ∧
  error_events (events (flat_map relay_step evs)) = [] ∧
  finish_events (events (flat_map relay_step evs)) = completions evs.
Proof.
  induction evs as [|i evs (IH1 & IH2 & IH3)]; [done|]. simpl.
  rewrite events_app.
  unfold data_events, error_events, finish_events, all_chunks, completions in *.
  rewrite !omap_app, IH1, IH2, IH3. by destruct i.
Qed.

(** X14. A redirected download, as long as no response of the second
    request is a remote-error: one second request is issued; the chunks
    of both requests are passed on as ['data'] in the order of arrival;
    and ['finish'] is emitted once for each completion, of the first
    request and of the second, so twice when both complete. *)
Theorem download_redirect_relay (params : gmap string value)
    (l : error_listener) (res : response) (evs : list revent) :
  _isRedirect res = true →
  forallb download_ok evs = true →
  after_response params l res evs = Request params :: flat_map relay_step evs ∧
  data_events (events (after_response params l res evs)) = all_chunks evs ∧
  error_events (events (after_response params l res evs)) = [] ∧
  finish_events (events (after_response params l res evs)) = completions evs.
Proof.
  intros Hr Hok.
  assert (after_response params l res evs =
          Request params :: flat_map relay_step evs) as Hs.
  { rewrite after_response_unfold, onResponse_redirect by done.
    cbn [fst snd]. by rewrite rrun_relay. }
  rewrite Hs. split; [done|]. apply relay_step_events.
Qed.

End DownloadRelay.

(** * [readFile] and [writeFile] *)

Section FileCalls.
Context `{Builtins}.

(** The stream [readFile] listens on: the one [createReadStream] makes for
    the path, with an ['error'] listener attached with [once]. *)
Lemma readFile_stream (this : WebHDFS) (path : value) :
  invalid_path path = false →
  readFile this path =
  Ok (open_request this path VUndefined, listen OnceListener read_init,
      [Request (open_request this path VUndefined)]).
Proof. intros Hp. unfold readFile, createReadStream. by rewrite Hp. Qed.

Lemma readFile_answers_off (evs : list event) (st : read_listeners) :
  rl_on_finish st = false → readFile_answers st evs = [].
Proof.
  revert st. induction evs as [|e evs IH]; intros st Hf; [done|].
  simpl. destruct e as [c|err|loc]; simpl.
  - by apply IH.
  - destruct (rl_on_error st); by apply IH.
  - rewrite Hf. by apply IH.
Qed.

Lemma readFile_answers_first_finish (pre post : list event)
    (loc : option string) (st : read_listeners) :
  no_finish pre = true →
  rl_on_finish st = true →
  readFile_answers st (pre ++ EvFinish loc :: post) =
  [match (if rl_on_error st then
            match head (error_events pre) with
            | Some e => e
            | None => rl_error st
            end
          else rl_error st) with
   | None => Content (Buffer_concat (rl_data st ++ data_events pre))
   | Some e => Failure e
   end].
Proof.
  revert st. induction pre as [|e pre IH]; intros st Hn Hf.
  - simpl. rewrite Hf, app_nil_r. rewrite readFile_answers_off by done.
    by destruct (rl_on_error st).
  - simpl in Hn. apply andb_true_iff in Hn as [He Hn].
    destruct e as [c|err|l]; [| |done]; simpl.
    + rewrite IH by done. simpl. by rewrite <- app_assoc.
    + destruct (rl_on_error st) eqn:Ho.
      * rewrite IH by done. done.
      * rewrite IH by done. by rewrite Ho.
Qed.

Lemma readFile_answers_no_finish (evs : list event) (st : read_listeners) :
  no_finish evs = true → readFile_answers st evs = [].
Proof.
  revert st. induction evs as [|e evs IH]; intros st Hn; [done|].
  simpl in Hn. apply andb_true_iff in Hn as [He Hn].
  destruct e as [c|err|l]; [| |done]; simpl.
  - by apply IH.
  - destruct (rl_on_error st); by apply IH.
Qed.

Lemma readFile_answers_length (evs : list event) (st : read_listeners) :
  (length (readFile_answers st evs) ≤ 1)%nat.
Proof.
  revert st. induction evs as [|e evs IH]; intros st; [simpl; lia|].
  simpl. destruct e as [c|err|l]; simpl.
  - apply IH.
  - destruct (rl_on_error st); apply IH.
  - destruct (rl_on_finish st) eqn:Hf; [|apply IH].
    rewrite readFile_answers_off by done. simpl. lia.
Qed.

(** X15. [readFile] calls back at most once, and not before the stream's
    first ['finish']: never, if there is none. At the first ['finish'] it
    hands over the error of the first ['error'] event emitted before it,
    if that event carried one, and otherwise the concatenation of the
    ['data'] chunks emitted before it; what the stream emits afterwards
    is ignored. *)
Theorem readFile_calls_back_once (evs pre post : list event)
    (loc : option string) :
  (length (readFile_answers readFile_listeners evs) ≤ 1)%nat ∧
  (no_finish evs = true → readFile_answers readFile_listeners evs = []) ∧
  (no_finish pre = true →
   readFile_answers readFile_listeners (pre ++ EvFinish loc :: post) =
   [match stored_error pre with
    | Some e => Failure e
    | None => Content (Buffer_concat (data_events pre))
    end]).
Proof.
  split_and!.
  - apply readFile_answers_length.
  - apply readFile_answers_no_finish.
  - intros Hn. rewrite readFile_answers_first_finish by done.
    unfold stored_error. simpl. by destruct (head (error_events pre)) as [[e|]|].
Qed.

Lemma events_direct_chunks (chunks : list string) :
  events (flat_map direct_step (Data <$> chunks)) = EvData <$> chunks.
Proof.
  induction chunks as [|c chunks IH]; [done|].
  change (events ([Emit (EvData c)] ++ flat_map direct_step (Data <$> chunks)) =
          EvData c :: (EvData <$> chunks)).
  by rewrite events_app, IH.
Qed.

Lemma data_events_chunks (chunks : list string) :
  data_events (EvData <$> chunks) = chunks ∧
  error_events (EvData <$> chunks) = [] ∧
  no_finish (EvData <$> chunks) = true.
Proof.
  induction chunks as [|c chunks (IH1 & IH2 & IH3)]; [done|].
  split_and!; [| exact IH2 | exact IH3].
  change (c :: data_events (EvData <$> chunks) = c :: chunks). by rewrite IH1.
Qed.

(** X16. [readFile] on a direct download: when the response is neither a
    remote-error nor a redirect and the body arrives in the chunks
    [chunks] before the request completes, the callback gets their
    concatenation, and no error. *)
Theorem readFile_direct_content (params : gmap string value) (res : response)
    (chunks : list string) :
  _isError res = false →
  _isRedirect res = false →
  readFile_answers readFile_listeners
    (events (after_response params OnceListener res
               ((Data <$> chunks) ++ [Complete]))) =
  [Content (Buffer_concat chunks)].
Proof.
  intros He Hr.
  rewrite after_response_direct by done.
  rewrite flat_map_app, events_app, events_direct_chunks. simpl.
  destruct (data_events_chunks chunks) as (Hd & Hn & Hf).
  rewrite readFile_answers_first_finish by done. simpl.
  by rewrite Hn, Hd.
Qed.

(** X17. [readFile] on a remote-error response. When the body arrives in
    one chunk before the request completes, the callback gets the error
    [_parseError] returns on that chunk, and is told success with empty
    content if [_parseError] returns [null]. When the request completes
    without any chunk, the callback is told success, with empty content. *)
Theorem readFile_remote_error (params : gmap string value) (res : response)
    (chunk : string) (e : option Error) :
  _isError res = true →
  readFile_answers readFile_listeners
    (events (after_response params OnceListener res [Complete])) =
    [Content EmptyString] ∧
  (_parseError (VStr chunk) false = Ok e →
   readFile_answers readFile_listeners
     (events (after_response params OnceListener res [Data chunk; Complete])) =
   [match e with
    | Some e => Failure e
    | None => Content EmptyString
    end]).
Proof.
  intros He. rewrite !after_response_unfold, onResponse_error by done.
  split; [done|].
  intros Hparse. cbn [fst snd]. rewrite !rrun_cons.
  unfold rstep, emit_req_data, onErrorData. simpl. rewrite Hparse.
  by destruct e.
Qed.

End FileCalls.

Section WriteFile.
Context `{Builtins}.

Lemma writeFile_reports_off (evs : list event) (st : write_listeners) :
  wl_on_finish st = false → writeFile_reports st evs = [].
Proof.
  revert st. induction evs as [|e evs IH]; intros st Hf; [done|].
  simpl. destruct e as [c|err|loc]; simpl.
  - by apply IH.
  - destruct (wl_on_error st); by apply IH.
  - rewrite Hf. by apply IH.
Qed.

Lemma writeFile_reports_no_finish (evs : list event) (st : write_listeners) :
  no_finish evs = true → writeFile_reports st evs = [].
Proof.
  revert st. induction evs as [|e evs IH]; intros st Hn; [done|].
  simpl in Hn. apply andb_true_iff in Hn as [He Hn].
  destruct e as [c|err|l]; [| |done]; simpl.
  - by apply IH.
  - destruct (wl_on_error st); by apply IH.
Qed.

Lemma writeFile_reports_first_finish (pre post : list event)
    (loc : option string) :
  no_finish pre = true →
  writeFile_reports writeFile_listeners (pre ++ EvFinish loc :: post) =
  [stored_error pre].
Proof.
  assert (∀ st, no_finish pre = true → wl_on_finish st = true →
            writeFile_reports st (pre ++ EvFinish loc :: post) =
            [if wl_on_error st then
               match head (error_events pre) with
               | Some e => e
               | None => wl_error st
               end
             else wl_error st]) as Hgen.
  { induction pre as [|e pre IH]; intros st Hn Hf.
    - simpl. rewrite Hf. simpl. rewrite writeFile_reports_off by done.
      by destruct (wl_on_error st).
    - simpl in Hn. apply andb_true_iff in Hn as [He Hn].
      destruct e as [c|err|l]; [| |done]; simpl.
      + by rewrite IH.
      + destruct (wl_on_error st) eqn:Ho; rewrite IH by done; [done|].
        by rewrite Ho. }
  intros Hn. rewrite Hgen by done. unfold stored_error. simpl.
  by destruct (head (error_events pre)) as [[e|]|].
Qed.

Lemma write_session_silent (params : gmap string value)
    (pre post : list wevent) (res : response) :
  _isRedirect res = false →
  _isError res = false →
  events (write_session params pre (Completed res) post) = [].
Proof.
  intros Hr He. rewrite write_session_unfold, !events_app.
  destruct (wrun_before_upload pre (write_init params)) as (Hu & _ & _ & -> & _);
    [done|].
  simpl. rewrite Hr, He. simpl.
  by destruct (wrun_before_upload post _ Hu) as (_ & _ & _ & -> & _).
Qed.

Lemma writeFile_starts {F} (this : WebHDFS) (path : value) (src : nat)
    (append opts callback : arg F) :
  invalid_path path = false →
  ∃ params,
    writeFile this path src append opts callback =
    Ok ((writeFile_args append opts callback).2,
        (wstep (write_init params) (Pipe src)).1,
        [Request params; SrcPause src; SrcUnpipe src; ReqEnd]).
Proof.
  intros Hp. unfold writeFile.
  destruct (writeFile_args append opts callback) as [[a o] c]. rewrite Hp.
  destruct (createWriteStream_valid this path a o Hp) as [params ->].
  by exists params.
Qed.

(** X18. [writeFile] on a valid path issues the first request, pipes the
    reader of its data into it (which pauses and unpipes the reader and
    ends the request) and then reports through its callback at most once,
    at the first ['finish'] of the upload: the transport's error when the
    first request fails; what [_parseError] returns when the first response
    is a remote-error; no error when the redirect is followed and the
    second response is no remote-error; the transport's error when the
    second request fails. When the first response is neither a redirect nor
    a remote-error, the callback is never called. None of this depends on
    what else reaches the session before the first response ([pre]: the
    ['resume'] that [pipe] causes, for one). *)
Theorem writeFile_reports_upload {F} (this : WebHDFS) (path : value)
    (src : nat) (append opts callback : arg F) :
  invalid_path path = false →
  ∃ params,
    writeFile this path src append opts callback =
      Ok ((writeFile_args append opts callback).2,
          (wstep (write_init params) (Pipe src)).1,
          [Request params; SrcPause src; SrcUnpipe src; ReqEnd]) ∧
    ∀ (pre post flow1 flow2 : list wevent) (res res2 : response) (err : Error),
      let reports o after :=
        writeFile_reports writeFile_listeners
          (events (write_session params (Pipe src :: pre) o after)) in
      (length (reports (Completed res) post) ≤ 1)%nat ∧
      reports (Failed err) post = [Some err] ∧
      (_isError res = true →
       ∀ e, _parseError (body res) false = Ok e →
            reports (Completed res) post = [e]) ∧
      (_isRedirect res = false → _isError res = false →
       reports (Completed res) post = []) ∧
      (_isRedirect res = true →
       forallb is_flow flow1 = true → forallb is_flow flow2 = true →
       (_isError res2 = false →
        reports (Completed res)
                (flow1 ++ UploadResponse (Completed res2) :: flow2) = [None]) ∧
       reports (Completed res)
               (flow1 ++ UploadResponse (Failed err) :: flow2) = [Some err]).
Proof.
  intros Hp. destruct (writeFile_starts this path src append opts callback Hp)
    as [params Hw].
  exists params. split; [done|]. clear Hw.
  intros pre post flow1 flow2 res res2 err. cbv zeta. split_and!.
  - generalize (events (write_session params (Pipe src :: pre) (Completed res)
                          post)).
    generalize writeFile_listeners.
    intros st evs. revert st. induction evs as [|e evs IH]; intros st.
    { simpl. lia. }
    simpl. destruct e as [c|er|l]; simpl.
    + apply IH.
    + destruct (wl_on_error st); apply IH.
    + destruct (wl_on_finish st) eqn:Hf; [|apply IH].
      rewrite writeFile_reports_off by done. simpl. lia.
  - by rewrite (write_session_first_failure params (Pipe src :: pre) post
                  (Failed err)).
  - intros He e Hparse.
    rewrite (write_session_first_failure params (Pipe src :: pre) post
               (Completed res)) by done.
    by rewrite Hparse.
  - intros Hr He. by rewrite write_session_silent.
  - intros Hr Hf1 Hf2. split.
    + intros He2.
      destruct (second_response_events params (Pipe src :: pre) flow1 flow2 res
                  (Completed res2) Hr Hf1 Hf2) as (st & _ & ->).
      simpl. by rewrite He2.
    + destruct (second_response_events params (Pipe src :: pre) flow1 flow2 res
                  (Failed err) Hr Hf1 Hf2) as (st & Hst & ->).
      simpl. by rewrite Hst.
Qed.

End WriteFile.

(** * Request parameters *)

Section RequestParams.
Context `{Builtins}.

(** X19. The request parameters given to the client at construction take
    precedence in every request: a parameter they define (with a value
    other than [undefined]) replaces the call's own [method], [url], [json]
    or [headers] of that name, in metadata calls and in the first request
    of both streams; what they do not define is sent as the call sets it. *)
Theorem requestParams_take_precedence (this : WebHDFS) (method url : string)
    (path append opts : value) (k : string) :
  (∀ v, _requestParams this !! k = Some v → is_undefined v = false →
     sent_params this method url !! k = Some v ∧
     (∀ p st effs, createReadStream this path opts = Ok (p, st, effs) →
                   p !! k = Some v) ∧
     (∀ p st effs, createWriteStream this path append opts = Ok (st, effs) →
                   requests effs = [p] → p !! k = Some v)) ∧
  ((_requestParams this !! k = None ∨
    _requestParams this !! k = Some VUndefined) →
   sent_params this method url !! k =
     ({[ "method" := VStr method; "url" := VStr url; "json" := VBool true ]}
        : gmap string value) !! k).
Proof.
  split.
  - intros v Hk Hv. split_and!.
    + unfold sent_params. by rewrite extend_empty, lookup_extend, Hk, Hv.
    + unfold createReadStream. destruct (invalid_path path); [done|].
      intros p st effs [= <- _ _]. by rewrite lookup_extend, Hk, Hv.
    + unfold createWriteStream.
      destruct append; destruct (invalid_path path); try done;
        intros p st effs [= _ <-] [= <-]; by rewrite lookup_extend, Hk, Hv.
  - intros Hk. unfold sent_params. rewrite extend_empty, lookup_extend.
    by destruct Hk as [-> | ->].
Qed.

(** X20. The first request of an upload, on a valid path, for a client
    without request parameters of its own: [PUT] to the [CREATE] endpoint
    when [append] is falsy and [POST] to the [APPEND] endpoint when it is
    truthy, as JSON with content type [application/octet-stream]; the
    query holds [overwrite=true] and [permissions=0755] unless the
    caller's options define them. *)
Theorem createWriteStream_first_request (this : WebHDFS) (path : value)
    (append : bool) (o : gmap string value) :
  invalid_path path = false →
  _requestParams this = ∅ →
  let operation := if append then "APPEND" else "CREATE" in
  let query :=
    endpoint_query this operation
      (VObj (extend_value {[ "overwrite" := VBool true;
                             "permissions" := VStr "0755" ]} (VObj o))) in
  createWriteStream this path (VBool append) (VObj o) =
    Ok (write_init
          {[ "method" := VStr (if append then "POST" else "PUT");
             "url" := VStr (endpoint_url this (string_of path) query);
             "json" := VBool true;
             "headers" :=
               VObj {[ "content-type" := VStr "application/octet-stream" ]} ]},
        [Request
          {[ "method" := VStr (if append then "POST" else "PUT");
             "url" := VStr (endpoint_url this (string_of path) query);
             "json" := VBool true;
             "headers" :=
               VObj {[ "content-type" := VStr "application/octet-stream" ]} ]}]) ∧
  ((o !! "op" = None ∨ o !! "op" = Some VUndefined) →
   query !! "op" = Some (VStr operation)) ∧
  ((o !! "overwrite" = None ∨ o !! "overwrite" = Some VUndefined) →
   query !! "overwrite" = Some (VBool true)) ∧
  ((o !! "permissions" = None ∨ o !! "permissions" = Some VUndefined) →
   query !! "permissions" = Some (VStr "0755")) ∧
  (∀ k v, o !! k = Some v → is_undefined v = false → query !! k = Some v).
Proof.
  intros Hp Hr operation query.
  assert (∀ k, query !! k =
               match o !! k with
               | Some v =>
                   if is_undefined v then
                     ({[ "overwrite" := VBool true;
                         "permissions" := VStr "0755";
                         "op" := VStr operation;
                         "user.name" := VStr (_opts_user this) ]}
                        : gmap string value) !! k
                   else Some v
               | None =>
                   ({[ "overwrite" := VBool true;
                       "permissions" := VStr "0755";
                       "op" := VStr operation;
                       "user.name" := VStr (_opts_user this) ]}
                      : gmap string value) !! k
               end) as Hq.
  { intros k. unfold query, endpoint_query, extend_value. simpl.
    rewrite !lookup_extend.
    assert (k ≠ "overwrite" → k ≠ "permissions" →
            ({[ "overwrite" := VBool true; "permissions" := VStr "0755" ]}
               : gmap string value) !! k = None) as Hd.
    { intros ??. rewrite lookup_insert_ne by congruence.
      apply lookup_singleton_ne. congruence. }
    destruct (o !! k) as [v|]; [destruct (is_undefined v) eqn:Hv|].
    - destruct (decide (k = "overwrite")) as [->|]; [done|].
      destruct (decide (k = "permissions")) as [->|]; [done|].
      rewrite Hd by done.
      by rewrite (lookup_insert_ne _ "overwrite"),
        (lookup_insert_ne _ "permissions") by congruence.
    - by rewrite Hv.
    - destruct (decide (k = "overwrite")) as [->|]; [done|].
      destruct (decide (k = "permissions")) as [->|]; [done|].
      rewrite Hd by done.
      by rewrite (lookup_insert_ne _ "overwrite"),
        (lookup_insert_ne _ "permissions") by congruence. }
  split_and!.
  - unfold createWriteStream. rewrite Hp, Hr, extend_empty.
    by destruct append.
  - intros [Hk|Hk]; rewrite Hq, Hk; done.
  - intros [Hk|Hk]; rewrite Hq, Hk; done.
  - intros [Hk|Hk]; rewrite Hq, Hk; done.
  - intros k v Hk Hv. by rewrite Hq, Hk, Hv.
Qed.

End RequestParams.

(** * The further statements at concrete inputs *)

Section Witnesses.
#[local] Existing Instance Sample.builtins.
Import Sample Cases.

(** X1 on [OPEN] with an [offset]. *)
Lemma getOperationEndpoint_query_witness :
  endpoint_query client "OPEN" (VObj {[ "offset" := VNum 1024 ]}) !! "offset" =
    Some (VNum 1024) ∧
  endpoint_query client "OPEN" (VObj {[ "offset" := VNum 1024 ]}) !! "op" =
    Some (VStr "OPEN").
Proof.
  destruct (getOperationEndpoint_query client "OPEN" "/f"
              {[ "offset" := VNum 1024 ]} VUndefined) as (_ & Hv & Hop & _).
  split; [apply Hv; reflexivity | apply Hop; left; reflexivity].
Defined.

(** X2 on options that name a host and leave the port undefined. *)
Lemma constructor_option_check_witness :
  check_options
    (createClient_options
       (VObj {[ "host" := VStr "namenode"; "port" := VUndefined ]}))
    required_options = Ok ().
Proof.
  apply (constructor_option_check ∅). left. reflexivity.
Defined.

(** X3 on the envelope of the specification's scenario, in strict mode. *)
Lemma parseError_on_plain_body_witness :
  _parseError (VStr not_found_text) true =
  Ok (Some (new_Error (VStr "File not found"))).
Proof.
  rewrite (parseError_on_plain_body (VStr not_found_text) true).
  - vm_compute. reflexivity.
  - vm_compute. split; reflexivity.
Defined.

(** X4 on [mkdir ('/d', callback)] answered with 201 and with 404. *)
Lemma report_only_calls_witness :
  resolve (mkdir client (VStr "/d") (Short observe)) (Completed created_201) =
    Ok (Some (None, VUndefined)) ∧
  resolve (mkdir client (VStr "/d") (Short observe)) (Completed not_found_404) =
    Ok (Some (Some (new_Error (VStr "File not found")), VUndefined)).
Proof.
  split.
  - destruct (report_only_calls client (VStr "/d") VNull VNull observe
                (Short observe) (Completed created_201) eq_refl)
      as (_ & _ & _ & _ & _ & _ & _ & _ & _ & _ & _ & Hm & _).
    exact Hm.
  - destruct (report_only_calls client (VStr "/d") VNull VNull observe
                (Short observe) (Completed not_found_404) eq_refl)
      as (_ & _ & _ & _ & _ & _ & _ & _ & _ & _ & _ & Hm & _).
    exact Hm.
Defined.

(** X5 on [mkdir] with [null] for the mode. *)
Lemma optional_argument_defaults_witness :
  mkdir client (VStr "/d") (Full VNull (AFun quiet)) =
  mkdir client (VStr "/d") (Full (VStr "0755") (AFun quiet)).
Proof.
  destruct (optional_argument_defaults client (VStr "/d") (VStr "/e") VNull quiet)
    as (_ & _ & _ & _ & Hx).
  destruct (Hx eq_refl) as (Hm & _). exact Hm.
Defined.

(** X6 on a listing of one file. *)
Lemma readdir_contract_witness :
  resolve (readdir client (VStr "/d") observe) (Completed ok_200_listing) =
  Ok (Some (None, listing)).
Proof.
  destruct (readdir_contract client (VStr "/d") (Completed ok_200_listing)
              eq_refl) as (_ & Hl & _).
  exact (Hl ok_200_listing _ eq_refl eq_refl eq_refl eq_refl eq_refl).
Defined.

(** X7 on a content summary. *)
Lemma body_calls_witness :
  resolve (getContentSummary client (VStr "/d") observe)
          (Completed ok_200_summary) = Ok (Some (None, summary)).
Proof.
  destruct (body_calls client (VStr "/d") VNull VNull VNull
              (Completed ok_200_summary) eq_refl) as (_ & Hf & _).
  destruct (Hf ok_200_summary _ eq_refl eq_refl eq_refl eq_refl) as (Hc & _).
  exact Hc.
Defined.

(** X9 on a source piped before the first response. *)
Lemma upload_source_is_held_witness :
  (wstep (wrun (write_init create_params) [Pipe 7%nat]).1 SrcResumed).2 =
  [SrcStopFlowing 7%nat].
Proof.
  destruct (upload_source_is_held create_params [Pipe 7%nat] []
              (Failed refused) 7%nat) as (_ & _ & Hh & _).
  apply Hh. reflexivity.
Defined.

(** X10 on a redirect that arrives before any source is piped. *)
Lemma redirect_without_source_witness :
  write_session create_params [SrcResumed] (Completed redirect_307) [] =
  [Request (redirect_params create_params redirect_307); Raise TypeError].
Proof.
  apply redirect_without_source_raises; reflexivity.
Defined.

(** X11 on a second response with status 302. *)
Lemma upload_finish_without_success_witness :
  events (write_session create_params [Pipe 0%nat] (Completed redirect_307)
            ([] ++ UploadResponse (Completed found_302) :: [])) =
  [EvFinish (headers found_302 !! "location")].
Proof.
  apply upload_finish_without_success_check; reflexivity.
Defined.

(** X12 on a second request refused by the network. *)
Lemma upload_second_failure_witness :
  events (write_session create_params [Pipe 0%nat] (Completed redirect_307)
            ([] ++ UploadResponse (Failed refused) :: [])) =
  [EvError (Some refused); EvFinish None].
Proof.
  apply (upload_second_failure create_params [Pipe 0%nat] [] [] redirect_307
           (Failed refused)); first [reflexivity | exact I].
Defined.

(** X13 on a 200 whose body arrives in two chunks. *)
Lemma download_direct_relay_witness :
  after_response open_params OnListener ok_200 [Data "ab"; Data "cd"; Complete] =
    flat_map direct_step [Data "ab"; Data "cd"; Complete] ∧
  data_events (events (after_response open_params OnListener ok_200
                         [Data "ab"; Data "cd"; Complete])) =
    first_chunks [Data "ab"; Data "cd"; Complete] ∧
  error_events (events (after_response open_params OnListener ok_200
                          [Data "ab"; Data "cd"; Complete])) = [] ∧
  requests (after_response open_params OnListener ok_200
              [Data "ab"; Data "cd"; Complete]) = [].
Proof.
  apply download_direct_relay; reflexivity.
Defined.

(** X14 on a redirected download, the client told not to follow
    redirects: the first request completes, then the second delivers a
    chunk and completes. *)
Lemma download_redirect_relay_witness :
  after_response open_params_no_follow OnListener redirect_307
    [Complete; DownloadResponse ok_200; DownloadData "ab"; DownloadComplete] =
    [Request open_params_no_follow; Emit (EvFinish None); Emit (EvData "ab");
     Emit (EvFinish None)] ∧
  finish_events (events (after_response open_params_no_follow OnListener
    redirect_307
    [Complete; DownloadResponse ok_200; DownloadData "ab"; DownloadComplete])) =
    [(); ()].
Proof.
  destruct (download_redirect_relay open_params_no_follow OnListener
    redirect_307
    [Complete; DownloadResponse ok_200; DownloadData "ab"; DownloadComplete]
    eq_refl eq_refl) as (Hs & _ & _ & Hf).
  split; [exact Hs | exact Hf].
Defined.

(** X15 on a stream that finishes twice. *)
Lemma readFile_calls_back_once_witness :
  readFile_answers readFile_listeners
    ([EvData "ab"] ++ EvFinish None :: [EvData "cd"; EvFinish None]) =
  [Content "ab"].
Proof.
  destruct (readFile_calls_back_once [] [EvData "ab"] [EvData "cd"; EvFinish None]
              None) as (_ & _ & Hf).
  exact (Hf eq_refl).
Defined.

(** X16 on a 200 whose body arrives in two chunks. *)
Lemma readFile_direct_content_witness :
  readFile_answers readFile_listeners
    (events (after_response open_params OnceListener ok_200
               ((Data <$> ["ab"; "cd"]) ++ [Complete]))) =
  [Content "abcd"].
Proof.
  apply (readFile_direct_content open_params ok_200 ["ab"; "cd"]); reflexivity.
Defined.

(** X17 on a 404 without body, and on the 404 of the specification's
    scenario. *)
Lemma readFile_remote_error_witness :
  readFile_answers readFile_listeners
    (events (after_response open_params OnceListener status_404 [Complete])) =
    [Content ""] ∧
  readFile_answers readFile_listeners
    (events (after_response open_params OnceListener status_404
               [Data not_found_text; Complete])) =
    [Failure (new_Error (VStr "File not found"))].
Proof.
  destruct (readFile_remote_error open_params status_404 not_found_text
              (Some (new_Error (VStr "File not found"))) eq_refl) as [Hn Hc].
  split; [exact Hn | apply Hc; vm_compute; reflexivity].
Defined.

(** X18 on [writeFile ('/f', data, callback)]. *)
Lemma writeFile_reports_upload_witness :
  ∃ params,
    writeFile client (VStr "/f") 0%nat (AFun quiet) (AVal VUndefined)
              (AVal VUndefined) =
      Ok (AFun quiet, (wstep (write_init params) (Pipe 0%nat)).1,
          [Request params; SrcPause 0%nat; SrcUnpipe 0%nat; ReqEnd]) ∧
    writeFile_reports writeFile_listeners
      (events (write_session params [Pipe 0%nat; SrcResumed]
                 (Completed no_content_204) [])) = [] ∧
    writeFile_reports writeFile_listeners
      (events (write_session params [Pipe 0%nat; SrcResumed]
                 (Failed refused) [])) = [Some refused].
Proof.
  destruct (writeFile_reports_upload client (VStr "/f") 0%nat (AFun quiet)
              (AVal VUndefined) (AVal VUndefined) eq_refl) as (params & Hw & Hr).
  exists params. split; [exact Hw|].
  destruct (Hr [SrcResumed] [] [] [] no_content_204 no_content_204 refused)
    as (_ & Hf & _ & Hs & _).
  split; [exact (Hs eq_refl eq_refl) | exact Hf].
Defined.

(** X19 on a client built with a [timeout]. *)
Lemma requestParams_take_precedence_witness :
  sent_params client_with_timeout "GET" "http://localhost:50070/" !! "timeout" =
    Some (VNum 1000) ∧
  sent_params client_with_timeout "GET" "http://localhost:50070/" !! "method" =
    Some (VStr "GET").
Proof.
  split.
  - destruct (requestParams_take_precedence client_with_timeout "GET"
                "http://localhost:50070/" (VStr "/f") VNull VNull "timeout")
      as [Hd _].
    apply (Hd (VNum 1000)); reflexivity.
  - destruct (requestParams_take_precedence client_with_timeout "GET"
                "http://localhost:50070/" (VStr "/f") VNull VNull "method")
      as [_ Hn].
    rewrite Hn by (left; reflexivity). reflexivity.
Defined.

(** X20 on an append that turns [overwrite] off. *)
Lemma createWriteStream_first_request_witness :
  endpoint_query client "APPEND"
    (VObj (extend_value {[ "overwrite" := VBool true;
                           "permissions" := VStr "0755" ]}
                        (VObj {[ "overwrite" := VBool false ]}))) !! "overwrite" =
    Some (VBool false) ∧
  endpoint_query client "APPEND"
    (VObj (extend_value {[ "overwrite" := VBool true;
                           "permissions" := VStr "0755" ]}
                        (VObj {[ "overwrite" := VBool false ]}))) !! "permissions" =
    Some (VStr "0755").
Proof.
  destruct (createWriteStream_first_request client (VStr "/f") true
              {[ "overwrite" := VBool false ]} eq_refl eq_refl)
    as (_ & _ & _ & Hperm & Hopts).
  split; [apply Hopts; reflexivity | apply Hperm; left; reflexivity].
Defined.

End Witnesses.
